(** * Event and Booking models: slug derivation, date/time normalisation,
      referential-integrity hook

    A shallow embedding of the two Mongoose models of the repository
    (the Event schema with its [pre('validate')] hook, and the Booking
    schema with its [pre('save')] hook), followed by the properties
    established for them.

    Conventions.
    - A JavaScript string is a [list ascii]; a character is one code unit
      in the range U+0000..U+00FF (Latin-1).  The character classes
      [\d], [\w], [\s], [String.prototype.trim] and
      [String.prototype.toLowerCase] are given on that range as
      ECMAScript defines them.
    - Regular expressions used through [test]/[match] are kept as syntax
      trees and run by a derivative matcher; the [replace] pipelines are
      written as the list functions they denote.
    - [Date.UTC] and the [getUTC*] accessors follow the day-number
      arithmetic of ECMAScript (MakeFullYear, MakeDay, YearFromTime,
      MonthFromTime, DateFromTime) on [Z].
    - The store, [Math.random], [Date.now] and the number of read queries
      are threaded through the hooks as an explicit world. *)

From Stdlib Require Import List Ascii String ZArith NArith Nnat Lia Bool Arith.
Import ListNotations.

(* ================================================================== *)
(** ** JavaScript strings and numbers *)
(* ================================================================== *)

Module JS.

Definition str := list ascii.

(** String literal. *)
Definition lit (s : string) : str := list_ascii_of_string s.

Definition code (c : ascii) : N := N_of_ascii c.

Definition inRange (lo hi : ascii) (c : ascii) : bool :=
  (code lo <=? code c)%N && (code c <=? code hi)%N.

Definition isChar (a : ascii) (c : ascii) : bool := Ascii.eqb a c.

(** [\d] *)
Definition isDigit (c : ascii) : bool := inRange "0" "9" c.

(** [\w] is [A-Za-z0-9_] *)
Definition isWord (c : ascii) : bool :=
  inRange "A" "Z" c || inRange "a" "z" c || isDigit c || isChar "_" c.

(** [\s], and the characters removed by [trim]: TAB, LF, VT, FF, CR,
    SPACE and NO-BREAK SPACE are the white space and line terminators
    below U+0100. *)
Definition isSpace (c : ascii) : bool :=
  match code c with
  | 9 | 10 | 11 | 12 | 13 | 32 | 160 => true
  | _ => false
  end%N.

Definition isHyphen (c : ascii) : bool := isChar "-" c.

(** [toLowerCase] on one code unit: A-Z, and U+00C0..U+00DE except the
    multiplication sign U+00D7, move up by 32. *)
Definition lowerChar (c : ascii) : ascii :=
  let n := code c in
  if ((65 <=? n) && (n <=? 90))%N then ascii_of_N (n + 32)
  else if ((192 <=? n) && (n <=? 222) && negb (n =? 215))%N
       then ascii_of_N (n + 32)
  else c.

Definition toLowerCase (s : str) : str := map lowerChar s.

Fixpoint dropWhile (p : ascii -> bool) (s : str) : str :=
  match s with
  | [] => []
  | c :: t => if p c then dropWhile p t else s
  end.

Definition dropWhileEnd (p : ascii -> bool) (s : str) : str :=
  rev (dropWhile p (rev s)).

Definition trim (s : str) : str :=
  dropWhileEnd isSpace (dropWhile isSpace s).

(** [s.replace(/[^...]/g, '')]: every character outside the class goes. *)
Definition keepOnly (p : ascii -> bool) (s : str) : str := filter p s.

(** [s.replace(/P+/g, '-')]: each maximal run of characters of class
    [p] becomes one hyphen.  [inRun] tells that the previous character
    belonged to the run being replaced. *)
Fixpoint replaceRuns (p : ascii -> bool) (inRun : bool) (s : str) : str :=
  match s with
  | [] => []
  | c :: t =>
      if p c
      then (if inRun then replaceRuns p true t
            else "-"%char :: replaceRuns p true t)
      else c :: replaceRuns p false t
  end.

(** [s.replace(/^-+|-+$/g, '')] *)
Definition stripHyphens (s : str) : str :=
  dropWhileEnd isHyphen (dropWhile isHyphen s).

(** [s.padStart(n, '0')] *)
Definition padStart0 (n : nat) (s : str) : str :=
  repeat "0"%char (n - List.length s) ++ s.

(** Value of a decimal digit character. *)
Definition digitVal (c : ascii) : Z := (Z.of_N (code c) - 48)%Z.

(** [parseInt(s, 10)] on a string of decimal digits. *)
Definition parseInt10 (s : str) : Z :=
  fold_left (fun acc c => 10 * acc + digitVal c)%Z s 0%Z.

(** Digit [d] (below 36) in the alphabet of [Number.prototype.toString]:
    0-9 then a-z. *)
Definition digitChar (d : N) : ascii :=
  if (d <? 10)%N then ascii_of_N (48 + d)%N else ascii_of_N (87 + d)%N.

(** Digits of a number in base [b], most significant first.  The fuel
    is the binary size of the number, which is never used up. *)
Fixpoint digitsFuel (fuel : nat) (b : N) (n : N) (acc : str) : str :=
  match fuel with
  | O => acc
  | S f =>
      let acc' := digitChar (n mod b)%N :: acc in
      if (n / b =? 0)%N then acc' else digitsFuel f b (n / b)%N acc'
  end.

Definition digitsN (b : N) (n : N) : str :=
  digitsFuel (S (N.to_nat (N.log2 n))) b n [].

(** [n.toString(b)] for an integer [n]. *)
Definition toStringRadix (b : N) (n : Z) : str :=
  if (n <? 0)%Z then "-"%char :: digitsN b (Z.to_N (- n))
  else digitsN b (Z.to_N n).

(** [String(n)] for an integer [n]. *)
Definition String_ (n : Z) : str := toStringRadix 10 n.

(** [s.split(':')] *)
Fixpoint splitOn (sep : ascii) (cur : str) (s : str) : list str :=
  match s with
  | [] => [rev cur]
  | c :: t =>
      if Ascii.eqb c sep then rev cur :: splitOn sep [] t
      else splitOn sep (c :: cur) t
  end.

Definition split (sep : ascii) (s : str) : list str := splitOn sep [] s.

(** [parts.join('')], where an [undefined] element contributes nothing. *)
Definition joinOpt (parts : list (option ascii)) : str :=
  flat_map (fun o => match o with Some c => [c] | None => [] end) parts.

(** [a || b] on strings: the empty string is falsy. *)
Definition orElse (a b : str) : str :=
  match a with
  | [] => b
  | _ => a
  end.

Definition eqStr (a b : str) : bool :=
  if list_eq_dec ascii_dec a b then true else false.

End JS.

(* ================================================================== *)
(** ** Regular expressions of [test] and [match] *)
(* ================================================================== *)

Module Regex.
Import JS.

Inductive regex : Type :=
| Void : regex
| Eps : regex
| Cls : (ascii -> bool) -> regex
| Seq : regex -> regex -> regex
| Alt : regex -> regex -> regex
| Star : regex -> regex.

(** [r+], [r?] and [r{n}] *)
Definition Plus (r : regex) : regex := Seq r (Star r).
Definition Opt (r : regex) : regex := Alt r Eps.
Fixpoint Rep (n : nat) (r : regex) : regex :=
  match n with
  | O => Eps
  | S k => Seq r (Rep k r)
  end.

Fixpoint nullable (r : regex) : bool :=
  match r with
  | Void => false
  | Eps => true
  | Cls _ => false
  | Seq a b => nullable a && nullable b
  | Alt a b => nullable a || nullable b
  | Star _ => true
  end.

Fixpoint deriv (c : ascii) (r : regex) : regex :=
  match r with
  | Void => Void
  | Eps => Void
  | Cls p => if p c then Eps else Void
  | Seq a b =>
      if nullable a then Alt (Seq (deriv c a) b) (deriv c b)
      else Seq (deriv c a) b
  | Alt a b => Alt (deriv c a) (deriv c b)
  | Star a => Seq (deriv c a) (Star a)
  end.

(** [/^r$/.test(s)]: the whole of [s] is matched by [r]. *)
Fixpoint test (r : regex) (s : str) : bool :=
  match s with
  | [] => nullable r
  | c :: t => test (deriv c r) t
  end.

(** The language of a regular expression. *)
Inductive Lang : regex -> str -> Prop :=
| LEps : Lang Eps []
| LCls p c : p c = true -> Lang (Cls p) [c]
| LSeq a b s t : Lang a s -> Lang b t -> Lang (Seq a b) (s ++ t)
| LAltL a b s : Lang a s -> Lang (Alt a b) s
| LAltR a b s : Lang b s -> Lang (Alt a b) s
| LStarNil a : Lang (Star a) []
| LStarApp a s t : Lang a s -> Lang (Star a) t -> Lang (Star a) (s ++ t).

End Regex.

(* ================================================================== *)
(** ** ECMAScript dates: [Date.UTC] and the UTC accessors *)
(* ================================================================== *)

Module ESDate.
Local Open Scope Z_scope.

Definition msPerDay : Z := 86400000.

Definition Day (t : Z) : Z := t / msPerDay.

Definition DaysInYear (y : Z) : Z :=
  if y mod 400 =? 0 then 366
  else if y mod 100 =? 0 then 365
  else if y mod 4 =? 0 then 366
  else 365.

Definition DayFromYear (y : Z) : Z :=
  365 * (y - 1970) + (y - 1969) / 4 - (y - 1901) / 100 + (y - 1601) / 400.

Definition TimeFromYear (y : Z) : Z := msPerDay * DayFromYear y.

(** YearFromTime is the largest year whose first day is not after the
    day of [t]; it is found by walking up from a year that is not
    after it. *)
Fixpoint yearSearch (fuel : nat) (y d : Z) : Z :=
  match fuel with
  | O => y
  | S f => if DayFromYear (y + 1) <=? d then yearSearch f (y + 1) d else y
  end.

Definition YearFromDay (d : Z) : Z :=
  let y0 := 1970 + (if 0 <=? d then d / 366 else d / 365) in
  yearSearch (Z.to_nat ((d - DayFromYear y0) / 365)) y0 d.

Definition YearFromTime (t : Z) : Z := YearFromDay (Day t).

Definition InLeapYear (t : Z) : Z :=
  if DaysInYear (YearFromTime t) =? 366 then 1 else 0.

Definition DayWithinYear (t : Z) : Z :=
  Day t - DayFromYear (YearFromTime t).

(** Day within the year on which month [m] (0-11) starts. *)
Definition monthStart (m leap : Z) : Z :=
  match m with
  | 0 => 0
  | 1 => 31
  | 2 => 59 + leap
  | 3 => 90 + leap
  | 4 => 120 + leap
  | 5 => 151 + leap
  | 6 => 181 + leap
  | 7 => 212 + leap
  | 8 => 243 + leap
  | 9 => 273 + leap
  | 10 => 304 + leap
  | _ => 334 + leap
  end.

Definition MonthFromTime (t : Z) : Z :=
  let d := DayWithinYear t in
  let l := InLeapYear t in
  if d <? 31 then 0
  else if d <? 59 + l then 1
  else if d <? 90 + l then 2
  else if d <? 120 + l then 3
  else if d <? 151 + l then 4
  else if d <? 181 + l then 5
  else if d <? 212 + l then 6
  else if d <? 243 + l then 7
  else if d <? 273 + l then 8
  else if d <? 304 + l then 9
  else if d <? 334 + l then 10
  else 11.

Definition DateFromTime (t : Z) : Z :=
  DayWithinYear t - monthStart (MonthFromTime t) (InLeapYear t) + 1.

(** MakeDay(year, month, date) for integral arguments. *)
Definition MakeDay (year month date : Z) : Z :=
  let ym := year + month / 12 in
  let mn := month mod 12 in
  let leap := if DaysInYear ym =? 366 then 1 else 0 in
  let t := TimeFromYear ym + msPerDay * monthStart mn leap in
  Day t + date - 1.

(** MakeDate(day, time) *)
Definition MakeDate (day time : Z) : Z := day * msPerDay + time.

(** TimeClip: [None] stands for NaN. *)
Definition TimeClip (t : Z) : option Z :=
  if Z.abs t <=? 8640000000000000 then Some t else None.

(** MakeFullYear: a year from 0 to 99 means 1900 + year. *)
Definition MakeFullYear (y : Z) : Z :=
  if (0 <=? y) && (y <=? 99) then 1900 + y else y.

(** [Date.UTC(year, month, date)]; the time of day is 0. *)
Definition UTC (year month date : Z) : option Z :=
  TimeClip (MakeDate (MakeDay (MakeFullYear year) month date) 0).

(** [new Date(tv)] keeps the clipped time value. *)
Definition newDate (tv : option Z) : option Z :=
  match tv with
  | Some t => TimeClip t
  | None => None
  end.

(** The accessors return NaN ([None]) on an invalid date. *)
Definition getUTCFullYear (d : option Z) : option Z := option_map YearFromTime d.
Definition getUTCMonth (d : option Z) : option Z := option_map MonthFromTime d.
Definition getUTCDate (d : option Z) : option Z := option_map DateFromTime d.

(** [x !== n] for a number [x] that may be NaN and an integer [n]. *)
Definition numNe (x : option Z) (n : Z) : bool :=
  match x with
  | Some v => negb (v =? n)
  | None => true
  end.

(** [x + 1] on a number that may be NaN. *)
Definition numSucc (x : option Z) : option Z := option_map (fun v => v + 1) x.

End ESDate.

(* ================================================================== *)
(** ** Hooks: mutable state with exceptions *)
(* ================================================================== *)

Module Hook.

(** Outcome of a step: a value, or a thrown [Error] with its message. *)
Inductive outcome (A : Type) : Type :=
| Ok : A -> outcome A
| Throw : JS.str -> outcome A.
Arguments Ok {A} _.
Arguments Throw {A} _.

(** A step reads and writes a state of type [S]; what it wrote stays
    written when it throws. *)
Definition M (S A : Type) : Type := S -> S * outcome A.

Definition ret {S A} (a : A) : M S A := fun st => (st, Ok a).

Definition bind {S A B} (m : M S A) (k : A -> M S B) : M S B :=
  fun st =>
    match m st with
    | (st', Ok a) => k a st'
    | (st', Throw e) => (st', Throw e)
    end.

Definition throw {S A} (msg : JS.str) : M S A := fun st => (st, Throw msg).

Definition get {S} : M S S := fun st => (st, Ok st).

Definition modify {S} (f : S -> S) : M S unit := fun st => (f st, Ok tt).

(** [if (c) { body }] *)
Definition when {S} (c : bool) (body : M S unit) : M S unit :=
  if c then body else ret tt.

Declare Scope hook_scope.
Delimit Scope hook_scope with hook.
Notation "x <- m ;; k" := (bind m (fun x => k))
  (at level 61, m at next level, right associativity) : hook_scope.
Notation "m ;;; k" := (bind m (fun _ => k))
  (at level 61, right associativity) : hook_scope.

End Hook.

(* ================================================================== *)
(** ** The Event model *)
(* ================================================================== *)

Module Event.
Import JS Regex ESDate Hook.
Local Open Scope hook_scope.

(** A field value as [typeof] sees it. *)
Inductive value : Type :=
| VString : str -> value
| VOther : value.

Inductive path : Type := PTitle | PSlug | PDate | PTime | PMode.

(** The document the hook runs on ([this]).  [modified] is Mongoose's
    dirty tracking as [isModified] reports it to the hook; the hook
    reads it for [title], [date] and [time] only, before it assigns
    the field in question. *)
Record doc : Type := mkDoc {
  _id : nat;
  isNew : bool;
  title : str;
  slug : option str;
  date : value;
  time : str;
  modified : path -> bool
}.

(** The collaborators of the hook: the persisted Event rows ([_id],
    [slug]), the successive values of
    [Math.floor(Math.random() * alphabet.length)], the value of
    [Date.now()], and the number of [findOne] queries issued. *)
Record world : Type := mkWorld {
  events : list (nat * str);
  draws : nat -> nat;
  drawn : nat;
  now : Z;
  reads : nat
}.

Record state : Type := mkState { this : doc; env : world }.

Definition isModified (p : path) : M state bool :=
  fun st => (st, Ok (modified (this st) p)).

Definition setSlug (v : option str) (d : doc) : doc :=
  mkDoc (_id d) (isNew d) (title d) v (date d) (time d) (modified d).
Definition setDate (v : value) (d : doc) : doc :=
  mkDoc (_id d) (isNew d) (title d) (slug d) v (time d) (modified d).
Definition setTime (v : str) (d : doc) : doc :=
  mkDoc (_id d) (isNew d) (title d) (slug d) (date d) v (modified d).

(** Schema setters of [slug] ([lowercase: true, trim: true]), run on
    every assignment to the field; Mongoose runs the setters from the
    last declared to the first, and these two commute. *)
Definition slugSetters (v : str) : str := toLowerCase (trim v).

Definition assignSlug (v : str) : M state unit :=
  modify (fun st => mkState (setSlug (Some (slugSetters v)) (this st)) (env st)).
Definition assignDate (v : str) : M state unit :=
  modify (fun st => mkState (setDate (VString v) (this st)) (env st)).
Definition assignTime (v : str) : M state unit :=
  modify (fun st => mkState (setTime v (this st)) (env st)).

(** [!this.slug] *)
Definition slugMissing (d : doc) : bool :=
  match slug d with
  | None => true
  | Some [] => true
  | Some _ => false
  end.

(** The [replace] pipeline on the title. *)
Definition slugBase (t : str) : str :=
  stripHyphens
    (replaceRuns isHyphen false
       (replaceRuns isSpace false
          (keepOnly (fun c => isWord c || isSpace c || isHyphen c)
             (trim (toLowerCase t))))).

Definition alphabet : str := lit "0123456789abcdefghijklmnopqrstuvwxyz".

(** One [Math.floor(Math.random() * alphabet.length)]. *)
Definition nextDraw : M state nat :=
  fun st =>
    let w := env st in
    (mkState (this st)
       (mkWorld (events w) (draws w) (S (drawn w)) (now w) (reads w)),
     Ok (draws w (drawn w))).

Fixpoint drawChars (n : nat) : M state (list (option ascii)) :=
  match n with
  | O => ret []
  | S k =>
      i <- nextDraw ;;
      rest <- drawChars k ;;
      ret (nth_error alphabet i :: rest)
  end.

(** [Array.from({ length: 6 }, () => alphabet[...]).join('')] *)
Definition generateShortId : M state str :=
  cs <- drawChars 6 ;; ret (joinOpt cs).

(** [Model.findOne({ slug: candidate, _id: { $ne: this._id } })], as
    the truth value of its result. *)
Definition findOneOther (candidate : str) : M state bool :=
  fun st =>
    let w := env st in
    (mkState (this st)
       (mkWorld (events w) (draws w) (drawn w) (now w) (S (reads w))),
     Ok (existsb
           (fun row => eqStr (snd row) candidate
                       && negb (Nat.eqb (fst row) (_id (this st))))
           (events w))).

Definition dateNow : M state Z := fun st => (st, Ok (now (env st))).

Definition hyphen : str := lit "-".

(** The [for] loop with [attempts] iterations left; it yields the last
    candidate and the last value of [exists]. *)
Fixpoint retryLoop (attempts : nat) (base candidate : str)
  : M state (str * bool) :=
  match attempts with
  | O => ret (candidate, true)
  | S k =>
      id <- generateShortId ;;
      let candidate' := base ++ hyphen ++ id in
      ex <- findOneOther candidate' ;;
      if ex then retryLoop k base candidate'
      else ret (candidate', false)
  end.

(** The body of the first [if] of the hook. *)
Definition deriveSlug : M state unit :=
  st <- get ;;
  let base := slugBase (title (this st)) in
  let candidate := orElse base (lit "untitled") in
  ex <- findOneOther candidate ;;
  candidate <-
    (if ex then
       r <- retryLoop 3 base candidate ;;
       if snd r then
         ts <- dateNow ;;
         id <- generateShortId ;;
         ret (base ++ hyphen ++ toStringRadix 36 ts ++ id)
       else ret (fst r)
     else ret candidate) ;;
  assignSlug candidate.

(** [/^(\d{4})-(\d{2})-(\d{2})$/] *)
Definition dateRegex : regex :=
  Seq (Rep 4 (Cls isDigit))
    (Seq (Cls isHyphen)
       (Seq (Rep 2 (Cls isDigit))
          (Seq (Cls isHyphen) (Rep 2 (Cls isDigit))))).

(** The three groups of [dateRegex] have fixed places in a match. *)
Definition group1 (s : str) : str := firstn 4 s.
Definition group2 (s : str) : str := firstn 2 (skipn 5 s).
Definition group3 (s : str) : str := firstn 2 (skipn 8 s).

(** The date step. *)
Definition normalizeDate : M state unit :=
  st <- get ;;
  match date (this st) with
  | VOther => throw (lit "Date must be a string in YYYY-MM-DD format")
  | VString s =>
      if negb (test dateRegex s)
      then throw (lit "Date must be in YYYY-MM-DD format")
      else
        let yyyy := parseInt10 (group1 s) in
        let mm := parseInt10 (group2 s) in
        let dd := parseInt10 (group3 s) in
        let utc := newDate (UTC yyyy (mm - 1) dd) in
        if numNe (getUTCFullYear utc) yyyy
           || numNe (numSucc (getUTCMonth utc)) mm
           || numNe (getUTCDate utc) dd
        then throw (lit "Invalid date components")
        else
          let mmStr := padStart0 2 (String_ mm) in
          let ddStr := padStart0 2 (String_ dd) in
          assignDate (String_ yyyy ++ hyphen ++ mmStr ++ hyphen ++ ddStr)
  end.

(** [/^([0-1]?[0-9]|2[0-3]):([0-5][0-9])$/] *)
Definition timeRegex : regex :=
  Seq (Alt (Seq (Opt (Cls (inRange "0" "1"))) (Cls (inRange "0" "9")))
           (Seq (Cls (isChar "2")) (Cls (inRange "0" "3"))))
    (Seq (Cls (isChar ":"))
       (Seq (Cls (inRange "0" "5")) (Cls (inRange "0" "9")))).

(** The time step.  With fewer than two parts [minutes] is [undefined]
    and [minutes.padStart] throws a TypeError. *)
Definition normalizeTime : M state unit :=
  st <- get ;;
  let t := time (this st) in
  if negb (test timeRegex t)
  then throw (lit "Time must be in HH:MM format")
  else
    match split ":" t with
    | hours :: minutes :: _ =>
        assignTime (padStart0 2 hours ++ lit ":" ++ padStart0 2 minutes)
    | _ => throw (lit "TypeError")
    end.

(** [EventSchema.pre('validate', ...)] *)
Definition preValidate : M state unit :=
  st <- get ;;
  titleModified <- isModified PTitle ;;
  when ((isNew (this st) && slugMissing (this st)) || titleModified)
    deriveSlug ;;;
  dateModified <- isModified PDate ;;
  when dateModified normalizeDate ;;;
  timeModified <- isModified PTime ;;
  when timeModified normalizeTime.

(** The [mode] field: [lowercase: true] is its setter, [required] and
    [enum] are its validators. *)
Definition modeSetter (v : str) : str := toLowerCase v.
Definition modeEnum : list str := [lit "online"; lit "offline"; lit "hybrid"].
Definition modeValid (stored : str) : bool :=
  negb (eqStr stored []) && existsb (eqStr stored) modeEnum.

(** Assigning [v] to [mode] and validating: the stored value, or the
    rejection. *)
Definition saveMode (v : str) : option str :=
  let stored := modeSetter v in
  if modeValid stored then Some stored else None.

End Event.

(* ================================================================== *)
(** ** The Booking model *)
(* ================================================================== *)

Module Booking.
Import JS Regex Hook.
Local Open Scope hook_scope.

(** Schema setters of [email] ([lowercase: true, trim: true]), run from
    the last declared to the first. *)
Definition emailSetters (v : str) : str := toLowerCase (trim v).

(** [[^\s@]] *)
Definition notSpaceAt (c : ascii) : bool := negb (isSpace c || isChar "@" c).

(** [/^[^\s@]+@[^\s@]+\.[^\s@]+$/] *)
Definition emailRegex : regex :=
  Seq (Plus (Cls notSpaceAt))
    (Seq (Cls (isChar "@"))
       (Seq (Plus (Cls notSpaceAt))
          (Seq (Cls (isChar ".")) (Plus (Cls notSpaceAt))))).

Definition emailValidator (v : str) : bool := test emailRegex v.

(** [required] and [validate] on the stored value. *)
Definition emailValid (stored : str) : bool :=
  negb (eqStr stored []) && emailValidator stored.

(** Assigning [v] to [email] and validating: the stored value, or the
    rejection with the validator's message. *)
Definition saveEmail (v : str) : option str :=
  let stored := emailSetters v in
  if emailValid stored then Some stored else None.

(** The document the hook runs on; [eventIdModified] is what
    [isModified('eventId')] reports. *)
Record doc : Type := mkDoc {
  eventId : nat;
  email : str;
  eventIdModified : bool
}.

(** The Event collection as the identities of its records, and the
    number of [exists] queries issued. *)
Record world : Type := mkWorld {
  eventIds : list nat;
  existsReads : nat
}.

Record state : Type := mkState { this : doc; env : world }.

(** [Event.exists({ _id: id })] *)
Definition eventExists (id : nat) : M state bool :=
  fun st =>
    let w := env st in
    (mkState (this st) (mkWorld (eventIds w) (S (existsReads w))),
     Ok (existsb (Nat.eqb id) (eventIds w))).

(** [BookingSchema.pre('save', ...)] *)
Definition preSave : M state unit :=
  st <- get ;;
  when (eventIdModified (this st))
    (found <- eventExists (eventId (this st)) ;;
     if negb found then throw (lit "Referenced event does not exist")
     else ret tt).

End Booking.

(* ================================================================== *)
(** ** Vocabulary of the specification *)
(* ================================================================== *)

Module Spec.
Import JS.
Local Open Scope Z_scope.

(** The decimal digit [n] as a character. *)
Definition digit (n : Z) : ascii := ascii_of_N (Z.to_N (48 + n)).

Definition twoDigits (n : Z) : str := [digit (n / 10); digit (n mod 10)].

Definition fourDigits (n : Z) : str :=
  [digit (n / 1000); digit (n / 100 mod 10); digit (n / 10 mod 10);
   digit (n mod 10)].

(** [YYYY-MM-DD] *)
Definition isoDate (y m d : Z) : str :=
  fourDigits y ++ lit "-" ++ twoDigits m ++ lit "-" ++ twoDigits d.

(** The Gregorian calendar. *)
Definition isLeap (y : Z) : bool :=
  ((y mod 4 =? 0) && negb (y mod 100 =? 0)) || (y mod 400 =? 0).

Definition daysInMonth (y m : Z) : Z :=
  match m with
  | 1 | 3 | 5 | 7 | 8 | 10 | 12 => 31
  | 4 | 6 | 9 | 11 => 30
  | 2 => if isLeap y then 29 else 28
  | _ => 0
  end.

Definition realDate (y m d : Z) : Prop :=
  1 <= m <= 12 /\ 1 <= d <= daysInMonth y m.

(** [H:MM] or [HH:MM] for hour [h] and minute [m]. *)
Definition timeForm (t : str) (h m : Z) : Prop :=
  0 <= h <= 23 /\ 0 <= m <= 59 /\
  (t = twoDigits h ++ lit ":" ++ twoDigits m \/
   (h <= 9 /\ t = [digit h] ++ lit ":" ++ twoDigits m)).

(** Characters of a slug. *)
Definition isLowerAlnum (c : ascii) : bool := inRange "a" "z" c || isDigit c.
(** [[a-z0-9-]] *)
Definition isSlugChar (c : ascii) : bool := isLowerAlnum c || isHyphen c.
(** [[a-z0-9_-]] *)
Definition isSlugCharU (c : ascii) : bool := isSlugChar c || isChar "_" c.

Definition noLeadingHyphen (s : str) : bool :=
  match s with
  | c :: _ => negb (isHyphen c)
  | [] => true
  end.

Definition noTrailingHyphen (s : str) : bool := noLeadingHyphen (rev s).

Fixpoint noDoubleHyphen (s : str) : bool :=
  match s with
  | c :: t => negb (isHyphen c && negb (noLeadingHyphen t)) && noDoubleHyphen t
  | [] => true
  end.

(** Non-empty, over the given characters, no leading, trailing or
    doubled hyphen. *)
Definition wellFormedSlug (chars : ascii -> bool) (s : str) : bool :=
  negb (eqStr s []) && forallb chars s
  && noLeadingHyphen s && noTrailingHyphen s && noDoubleHyphen s.

(** A 6-character token over [0-9a-z]. *)
Definition isToken (s : str) : bool :=
  Nat.eqb (List.length s) 6 && forallb isLowerAlnum s.

(** The base candidate of a title: the cleaned title, or [untitled]. *)
Definition baseCandidate (t : str) : str :=
  orElse (Event.slugBase t) (lit "untitled").

(** Another Event record holds the slug [s]. *)
Definition taken (st : Event.state) (s : str) : bool :=
  existsb
    (fun row => eqStr (snd row) s
                && negb (Nat.eqb (fst row) (Event._id (Event.this st))))
    (Event.events (Event.env st)).

(** The hook derives a slug on this save. *)
Definition derives (st : Event.state) : bool :=
  (Event.isNew (Event.this st) && Event.slugMissing (Event.this st))
  || Event.modified (Event.this st) Event.PTitle.

(** The token made of the six draws from position [k] on. *)
Definition tokenAt (w : Event.world) (k : nat) : str :=
  joinOpt (map (fun i => nth_error Event.alphabet (Event.draws w i))
               (seq k 6)).

(** The [n] draws from position [k] on are indices of the alphabet. *)
Definition drawsInRange (w : Event.world) (k n : nat) : Prop :=
  forall i, (k <= i < k + n)%nat ->
            (Event.draws w i < List.length Event.alphabet)%nat.

(** [local-part@domain] without white space, as the specification
    words it. *)
Definition emailFormClaimed (s : str) : Prop :=
  exists l d,
    s = l ++ lit "@" ++ d /\ l <> [] /\ d <> [] /\
    forallb Booking.notSpaceAt l = true /\
    forallb Booking.notSpaceAt d = true.

(** [local-part@label.rest]: the domain has a dot with something on
    both sides. *)
Definition emailForm (s : str) : Prop :=
  exists l d1 d2,
    s = l ++ lit "@" ++ d1 ++ lit "." ++ d2 /\
    l <> [] /\ d1 <> [] /\ d2 <> [] /\
    forallb Booking.notSpaceAt l = true /\
    forallb Booking.notSpaceAt d1 = true /\
    forallb Booking.notSpaceAt d2 = true.

End Spec.

(* ================================================================== *)
(** ** Runs of the hooks *)
(* ================================================================== *)

Module Run.
Import JS Spec ESDate Hook Event.

(** The integers from [lo], [n] of them. *)
Definition zrange (lo n : Z) : list Z :=
  map (fun k => (lo + Z.of_nat k)%Z) (seq 0 (Z.to_nat n)).

(** What [normalizeTime] stores for the time [t]. *)
Definition storedTime (t : str) : option str :=
  let d := mkDoc 0 false [] None VOther t (fun _ => false) in
  let w := mkWorld [] (fun _ => 0%nat) 0 0 0 in
  match normalizeTime (mkState d w) with
  | (st', Ok _) => Some (time (this st'))
  | (_, Throw _) => None
  end.

(** Hour [h] and minute [m], in both spellings of the hour, are stored
    as [HH:MM]. *)
Definition checkTime (h m : Z) : bool :=
  let canon := twoDigits h ++ lit ":" ++ twoDigits m in
  match storedTime canon with
  | Some v => eqStr v canon
  | None => false
  end
  && (if (h <=? 9)%Z
      then match storedTime ([digit h] ++ lit ":" ++ twoDigits m) with
           | Some v => eqStr v canon
           | None => false
           end
      else true).

(** The test of the date step on the parsed components: one of them
    does not read back from the reconstructed date. *)
Definition mismatch (yyyy mm dd : Z) : bool :=
  let utc := newDate (UTC yyyy (mm - 1) dd) in
  numNe (getUTCFullYear utc) yyyy
  || numNe (numSucc (getUTCMonth utc)) mm
  || numNe (getUTCDate utc) dd.

(** What [normalizeDate] does with the date [v]: the string it stores,
    or the message it throws. *)
Definition dateOutcome (v : value) : outcome str :=
  let d := mkDoc 0 false [] None v [] (fun _ => false) in
  let w := mkWorld [] (fun _ => 0%nat) 0 0 0 in
  match normalizeDate (mkState d w) with
  | (st', Ok _) =>
      match date (this st') with
      | VString s => Ok s
      | VOther => Throw []
      end
  | (_, Throw e) => Throw e
  end.

Definition check2 (n : Z) : bool := eqStr (padStart0 2 (String_ n)) (twoDigits n).

(** 1 in a leap year, 0 otherwise. *)
Definition leapOf (y : Z) : Z := if (DaysInYear y =? 366)%Z then 1%Z else 0%Z.

(** The class kept by the first [replace] of the slug pipeline. *)
Definition kept (c : ascii) : bool := isWord c || isSpace c || isHyphen c.

(** The candidate of retry [i] (0, 1, 2) and the fall-back. *)
Definition retryCandidate (st : state) (i : nat) : str :=
  slugBase (title (this st)) ++ hyphen
  ++ tokenAt (env st) (6 * i + drawn (env st)).

Definition fallbackCandidate (st : state) : str :=
  slugBase (title (this st)) ++ hyphen
  ++ toStringRadix 36 (now (env st)) ++ tokenAt (env st) (18 + drawn (env st)).

(** The candidate the derivation settles on, with the number of tokens
    drawn and of queries issued: the first of the base candidate and the
    three retries that no other record holds, or the fall-back. *)
Definition chosen (st : state) : str * nat * nat :=
  if negb (taken st (baseCandidate (title (this st))))
  then (baseCandidate (title (this st)), 0, 1)%nat
  else if negb (taken st (retryCandidate st 0)) then (retryCandidate st 0, 1, 2)%nat
  else if negb (taken st (retryCandidate st 1)) then (retryCandidate st 1, 2, 3)%nat
  else if negb (taken st (retryCandidate st 2)) then (retryCandidate st 2, 3, 4)%nat
  else (fallbackCandidate st, 4, 4)%nat.

(** The state after a derivation that assigned a candidate, drew tokens
    and issued queries as [r] says. *)
Definition derived (st : state) (r : str * nat * nat) : state :=
  let w := env st in
  mkState (setSlug (Some (slugSetters (fst (fst r)))) (this st))
    (mkWorld (events w) (draws w) (6 * snd (fst r) + drawn w) (now w)
       (snd r + reads w)).

(** The state in which the date and time steps start. *)
Definition afterSlug (st : state) : state :=
  if derives st then derived st (chosen st) else st.

(** The hook after its slug step. *)
Definition dateTimeSteps : M state unit :=
  (dateModified <- isModified PDate ;;
   when dateModified normalizeDate ;;;
   timeModified <- isModified PTime ;;
   when timeModified normalizeTime)%hook.

(** The slug of the document when the hook is over. *)
Definition slugAfter (st : state) : option str := slug (this (fst (preValidate st))).

(** A new Event document as [new Event({...})] leaves it: no slug yet,
    every path that was set counts as modified. *)
Definition newEvent (id : nat) (t : string) (d : string) (tm : string) : doc :=
  mkDoc id true (lit t) None (VString (lit d)) (lit tm) (fun _ => true).

(** A persisted Event document loaded from the store, with the paths in
    [changed] assigned since. *)
Definition loadedEvent (id : nat) (t sl d tm : string) (changed : path -> bool) : doc :=
  mkDoc id false (lit t) (Some (lit sl)) (VString (lit d)) (lit tm) changed.

(** A world whose draws run through the alphabet. *)
Definition worldOf (rows : list (nat * str)) : world :=
  mkWorld rows (fun n => Nat.modulo n 36) 0 1730000000000 0.

Definition onlyTime (p : path) : bool :=
  match p with
  | PTime => true
  | _ => false
  end.

Definition collidingState : state :=
  mkState (newEvent 7 "My Event" "2024-03-05" "9:05")
    (worldOf [(1%nat, lit "my-event")]).

Definition underscoreState : state :=
  mkState (newEvent 7 "a_b" "2024-03-05" "9:05") (worldOf []).

Definition untitledCollision : state :=
  mkState (newEvent 7 "!!!" "2024-03-05" "9:05")
    (worldOf [(1%nat, lit "untitled")]).

Definition rescheduledState : state :=
  mkState (loadedEvent 3 "My Event" "my-event-k3x9qa" "2024-03-05" "9:05" onlyTime)
    (worldOf [(1%nat, lit "my-event"); (3%nat, lit "my-event-k3x9qa")]).

End Run.

(* ================================================================== *)
(** ** Further fields and outcomes *)
(* ================================================================== *)

Module Fields.
Import JS.

(** A field declared [type: String, required: ..., trim: true] (title,
    description, overview, image, venue, location, audience, organizer):
    the setter trims, the [required] validator refuses the empty string.
    The stored value, or the rejection. *)
Definition saveTrimmed (v : str) : option str :=
  let stored := trim v in
  if eqStr stored [] then None else Some stored.

(** No character of class [p] at the head. *)
Definition headFree (p : ascii -> bool) (s : str) : bool :=
  match s with
  | c :: _ => negb (p c)
  | [] => true
  end.

End Fields.

Module Outcomes.
Import JS Spec Run Hook Event.

(** The outcome of the date step and then of the time step, each run
    only on a modified field, the first error standing. *)
Definition hookOutcome (st : state) : outcome unit :=
  match (if modified (this st) PDate then dateOutcome (date (this st))
         else Ok []) with
  | Throw e => Throw e
  | Ok _ =>
      if modified (this st) PTime
      then match storedTime (time (this st)) with
           | Some _ => Ok tt
           | None => Throw (lit "Time must be in HH:MM format")
           end
      else Ok tt
  end.

(** The document with the title [t]. *)
Definition setTitle (t : str) (d : doc) : doc :=
  mkDoc (_id d) (isNew d) t (slug d) (date d) (time d) (modified d).

(** The hook on a document whose title is [t].  It runs before the
    [required] validator of [title], so [this.title] may still be
    [undefined] ([None]); [this.title.toLowerCase()], the first thing
    the slug step does, then throws a TypeError, and the [title] of the
    record is not read. *)
Definition preValidateWith (t : option str) : M state unit :=
  match t with
  | Some s => fun st => preValidate (mkState (setTitle s (this st)) (env st))
  | None =>
      (st <- get ;;
       titleModified <- isModified PTitle ;;
       when ((isNew (this st) && slugMissing (this st)) || titleModified)
         (throw (lit "TypeError")) ;;;
       dateModified <- isModified PDate ;;
       when dateModified normalizeDate ;;;
       timeModified <- isModified PTime ;;
       when timeModified normalizeTime)%hook
  end.

(** A new Event created without a title. *)
Definition untitledState : state :=
  mkState (mkDoc 7 true [] None (VString (lit "2024-03-05")) (lit "9:05")
             (fun p => match p with PTitle => false | _ => true end))
    (worldOf [(1%nat, lit "untitled")]).

(** A persisted Event loaded and saved again with nothing assigned, its
    stored date older than the hook. *)
Definition untouchedState : state :=
  mkState (loadedEvent 3 "My Event" "my-event" "5 March 2024" "9am" (fun _ => false))
    (worldOf [(3%nat, lit "my-event")]).

(** A persisted Event whose title was assigned again; its own row holds
    the slug of that title. *)
Definition retitledState : state :=
  mkState (loadedEvent 3 "My Event" "my-event" "2024-03-05" "09:05"
             (fun p => match p with PTitle => true | _ => false end))
    (worldOf [(3%nat, lit "my-event"); (4%nat, lit "other-event")]).

End Outcomes.

(* ================================================================== *)
(** ** The derivative matcher decides the language *)
(* ================================================================== *)

Module RegexFacts.
Import JS Regex.

Lemma Lang_Seq_inv a b s :
  Lang (Seq a b) s -> exists s1 s2, s = s1 ++ s2 /\ Lang a s1 /\ Lang b s2.
Proof. intros H; inversion H; subst; eauto. Qed.

Lemma Lang_Alt_inv a b s : Lang (Alt a b) s -> Lang a s \/ Lang b s.
Proof. intros H; inversion H; subst; auto. Qed.

Lemma Lang_Cls_inv p s : Lang (Cls p) s -> exists c, s = [c] /\ p c = true.
Proof. intros H; inversion H; subst; eauto. Qed.

Lemma Lang_Eps_inv s : Lang Eps s -> s = [].
Proof. intros H; inversion H; reflexivity. Qed.

Lemma Lang_Void_inv s : ~ Lang Void s.
Proof. intros H; inversion H. Qed.

Lemma nullable_Lang r : nullable r = true <-> Lang r [].
Proof.
  induction r as [| |p|a IHa b IHb|a IHa b IHb|a IHa]; simpl; split; intros H.
  - discriminate.
  - inversion H.
  - constructor.
  - reflexivity.
  - discriminate.
  - inversion H.
  - apply andb_true_iff in H as [Ha Hb].
    change (@nil ascii) with (@nil ascii ++ []). constructor; tauto.
  - apply Lang_Seq_inv in H as (s1 & s2 & E & H1 & H2).
    symmetry in E. apply app_eq_nil in E as [-> ->].
    apply andb_true_iff; tauto.
  - apply orb_true_iff in H as [Ha | Hb];
      [apply LAltL | apply LAltR]; tauto.
  - apply orb_true_iff. apply Lang_Alt_inv in H; tauto.
  - constructor.
  - reflexivity.
Qed.

(** A non-empty word of [a*] starts with a non-empty word of [a]. *)
Lemma Lang_Star_cons a c s :
  Lang (Star a) (c :: s) ->
  exists s1 s2, s = s1 ++ s2 /\ Lang a (c :: s1) /\ Lang (Star a) s2.
Proof.
  intros H. remember (Star a) as r eqn:Er. remember (c :: s) as w eqn:Ew.
  revert Er Ew. induction H; intros Er Ew; try discriminate.
  injection Er as ->. destruct s0 as [|c0 s0].
  - simpl in Ew. auto.
  - simpl in Ew. injection Ew as E1 E2. subst c0 s. eauto.
Qed.

Lemma Lang_deriv r : forall c s, Lang (deriv c r) s <-> Lang r (c :: s).
Proof.
  induction r as [| |p|a IHa b IHb|a IHa b IHb|a IHa]; intros c s; simpl.
  - split; intros H; inversion H.
  - split; intros H; inversion H.
  - destruct (p c) eqn:Ep; split; intros H.
    + apply Lang_Eps_inv in H as ->. now constructor.
    + inversion H; subst. constructor.
    + inversion H.
    + inversion H; subst. congruence.
  - destruct (nullable a) eqn:Na; split; intros H.
    + apply Lang_Alt_inv in H as [H | H].
      * apply Lang_Seq_inv in H as (s1 & s2 & -> & H1 & H2).
        change (c :: s1 ++ s2) with ((c :: s1) ++ s2).
        constructor; [now apply IHa | assumption].
      * change (c :: s) with ([] ++ c :: s).
        constructor; [now apply nullable_Lang | now apply IHb].
    + apply Lang_Seq_inv in H as (s1 & s2 & E & H1 & H2).
      destruct s1 as [|c1 s1]; simpl in E.
      * subst s2. apply LAltR. now apply IHb.
      * injection E as <- ->. apply LAltL. constructor; [now apply IHa | assumption].
    + apply Lang_Seq_inv in H as (s1 & s2 & -> & H1 & H2).
      change (c :: s1 ++ s2) with ((c :: s1) ++ s2).
      constructor; [now apply IHa | assumption].
    + apply Lang_Seq_inv in H as (s1 & s2 & E & H1 & H2).
      destruct s1 as [|c1 s1]; simpl in E.
      * apply nullable_Lang in H1. congruence.
      * injection E as <- ->. constructor; [now apply IHa | assumption].
  - split; intros H.
    + apply Lang_Alt_inv in H as [H | H];
        [apply LAltL; now apply IHa | apply LAltR; now apply IHb].
    + apply Lang_Alt_inv in H as [H | H];
        [apply LAltL; now apply IHa | apply LAltR; now apply IHb].
  - split; intros H.
    + apply Lang_Seq_inv in H as (s1 & s2 & -> & H1 & H2).
      change (c :: s1 ++ s2) with ((c :: s1) ++ s2).
      constructor; [now apply IHa | assumption].
    + apply Lang_Star_cons in H as (s1 & s2 & -> & H1 & H2).
      constructor; [now apply IHa | assumption].
Qed.

Theorem test_Lang : forall s r, test r s = true <-> Lang r s.
Proof.
  induction s as [|c s IH]; intros r; simpl.
  - apply nullable_Lang.
  - rewrite IH. apply Lang_deriv.
Qed.

(** Words of [[p]*] and [[p]+]. *)
Lemma Lang_Star_Cls p s : Lang (Star (Cls p)) s <-> forallb p s = true.
Proof.
  split.
  - intros H. remember (Star (Cls p)) as r eqn:Er. revert Er.
    induction H; intros Er; try discriminate.
    + reflexivity.
    + injection Er as ->. apply Lang_Cls_inv in H as (c & -> & Hc).
      simpl. rewrite Hc. now apply IHLang2.
  - induction s as [|c s IH]; simpl; intros H.
    + constructor.
    + apply andb_true_iff in H as [Hc Hs].
      change (c :: s) with ([c] ++ s).
      constructor; [now constructor | now apply IH].
Qed.

Lemma Lang_Plus_Cls p s :
  Lang (Plus (Cls p)) s <-> s <> [] /\ forallb p s = true.
Proof.
  unfold Plus. split.
  - intros H. apply Lang_Seq_inv in H as (s1 & s2 & -> & H1 & H2).
    apply Lang_Cls_inv in H1 as (c & -> & Hc).
    apply Lang_Star_Cls in H2. simpl. rewrite Hc, H2. split; [discriminate | reflexivity].
  - intros [Hne H]. destruct s as [|c s]; [congruence|].
    simpl in H. apply andb_true_iff in H as [Hc Hs].
    change (c :: s) with ([c] ++ s).
    constructor; [now constructor | now apply Lang_Star_Cls].
Qed.

End RegexFacts.

(* ================================================================== *)
(** ** Characters, digits and ranges *)
(* ================================================================== *)

Module JSFacts.
Import JS Spec Run.
Local Open Scope Z_scope.

Lemma code_lt c : (code c < 256)%N.
Proof. apply N_ascii_bounded. Qed.

Lemma inRange_spec lo hi c :
  inRange lo hi c = true <-> (code lo <= code c <= code hi)%N.
Proof.
  unfold inRange. rewrite andb_true_iff, !N.leb_le. tauto.
Qed.

Lemma isChar_spec a c : isChar a c = true <-> c = a.
Proof. unfold isChar. rewrite Ascii.eqb_eq. split; congruence. Qed.

Lemma code_digit n : 0 <= n <= 9 -> code (digit n) = Z.to_N (48 + n).
Proof.
  intros H. unfold code, digit. apply N_ascii_embedding. lia.
Qed.

Lemma digitVal_digit n : 0 <= n <= 9 -> digitVal (digit n) = n.
Proof. intros H. unfold digitVal. rewrite code_digit by assumption. lia. Qed.

(** A character between "0" and an upper digit is a digit. *)
Lemma inRange_digit hi c :
  inRange "0" hi c = true -> (code hi <= 57)%N ->
  exists n, c = digit n /\ 0 <= n <= Z.of_N (code hi) - 48.
Proof.
  intros H Hhi. apply inRange_spec in H. change (code "0") with 48%N in H.
  exists (digitVal c). unfold digit, digitVal. split; [|lia].
  replace (Z.to_N (48 + (Z.of_N (code c) - 48))) with (code c) by lia.
  unfold code. now rewrite ascii_N_embedding.
Qed.

Lemma digit_inRange hi n :
  0 <= n <= Z.of_N (code hi) - 48 -> (code hi <= 57)%N ->
  inRange "0" hi (digit n) = true.
Proof.
  intros H Hhi. apply inRange_spec. rewrite code_digit by lia.
  change (code "0") with 48%N. lia.
Qed.

Lemma isDigit_digit c :
  isDigit c = true -> exists n, c = digit n /\ 0 <= n <= 9.
Proof. intros H. apply (inRange_digit "9" c H). vm_compute. discriminate. Qed.

Lemma twoDigits_val a b :
  0 <= a <= 9 -> 0 <= b <= 9 -> twoDigits (10 * a + b) = [digit a; digit b].
Proof.
  intros Ha Hb. unfold twoDigits.
  replace ((10 * a + b) / 10) with a by (Z.div_mod_to_equations; lia).
  replace ((10 * a + b) mod 10) with b by (Z.div_mod_to_equations; lia).
  reflexivity.
Qed.

Lemma in_zrange lo n x : lo <= x < lo + n -> In x (zrange lo n).
Proof.
  intros H. unfold zrange. apply in_map_iff. exists (Z.to_nat (x - lo)).
  split; [lia|]. apply in_seq. lia.
Qed.

Lemma digitChar_digit z : 0 <= z <= 9 -> digitChar (Z.to_N z) = digit z.
Proof.
intros H. unfold digitChar, digit.
destruct (N.ltb_spec (Z.to_N z) 10); [|lia].
f_equal. lia.
Qed.

Lemma digitsFuel_step f b n acc :
  digitsFuel (S f) b n acc =
  if (n / b =? 0)%N then digitChar (n mod b) :: acc
  else digitsFuel f b (n / b) (digitChar (n mod b) :: acc).
Proof. reflexivity. Qed.

(** More fuel than the binary size of the number changes nothing: the
    digits never run out of fuel. *)
Lemma digitsFuel_more b k : forall fuel n acc,
  (2 <= b)%N -> (n < 2 ^ N.of_nat (S fuel))%N ->
  digitsFuel (S fuel + k) b n acc = digitsFuel (S fuel) b n acc.
Proof.
induction fuel as [|f IH]; intros n acc Hb Hn.
- change (S 0 + k)%nat with (S k). rewrite !digitsFuel_step.
  assert (E : (n / b = 0)%N).
  { apply N.div_small. change (2 ^ N.of_nat 1)%N with 2%N in Hn. lia. }
  rewrite E. reflexivity.
- change (S (S f) + k)%nat with (S (S f + k)).
  rewrite (digitsFuel_step (S f + k)), (digitsFuel_step (S f)).
  destruct (n / b =? 0)%N; [reflexivity|].
  apply IH; [assumption|].
  apply N.Div0.div_lt_upper_bound.
  rewrite Nat2N.inj_succ, N.pow_succ_r' in Hn.
  assert (P : (0 < 2 ^ N.of_nat (S f))%N)
    by (apply N.neq_0_lt_0, N.pow_nonzero; discriminate).
  nia.
Qed.

Lemma digitsN_enough b k n :
  (2 <= b)%N ->
  digitsFuel (S (N.to_nat (N.log2 n)) + k) b n [] = digitsN b n.
Proof.
intros Hb. unfold digitsN. apply digitsFuel_more; [assumption|].
rewrite Nat2N.inj_succ, N2Nat.id.
destruct n as [|p]; [reflexivity|]. apply N.log2_spec. reflexivity.
Qed.

End JSFacts.

(* ================================================================== *)
(** ** The time step *)
(* ================================================================== *)

Module TimeFacts.
Import JS Regex Spec Run Hook Event JSFacts RegexFacts.
Local Open Scope Z_scope.

Lemma normalizeTime_stored st :
  normalizeTime st =
  match storedTime (time (this st)) with
  | Some v => (mkState (setTime v (this st)) (env st), Ok tt)
  | None => (st, Throw (lit "Time must be in HH:MM format"))
  end
  \/ (test timeRegex (time (this st)) = true /\ storedTime (time (this st)) = None).
Proof.
  unfold storedTime, normalizeTime, bind, get. simpl.
  destruct (test timeRegex (time (this st))) eqn:E; simpl.
  - destruct (split ":" (time (this st))) as [|h [|m r]]; simpl; auto.
  - auto.
Qed.

Lemma checkTime_all :
  forallb (fun h => forallb (checkTime h) (zrange 0 60)) (zrange 0 24) = true.
Proof. vm_compute. reflexivity. Qed.

Lemma eqStr_eq a b : eqStr a b = true <-> a = b.
Proof. unfold eqStr. destruct (list_eq_dec ascii_dec a b); split; congruence. Qed.

Lemma timeForm_stored t h m :
  timeForm t h m -> storedTime t = Some (twoDigits h ++ lit ":" ++ twoDigits m).
Proof.
  intros (Hh & Hm & Ht).
  pose proof checkTime_all as C. rewrite forallb_forall in C.
  specialize (C h (in_zrange 0 24 h ltac:(lia))).
  rewrite forallb_forall in C.
  specialize (C m (in_zrange 0 60 m ltac:(lia))).
  unfold checkTime in C. apply andb_true_iff in C as [C1 C2].
  destruct Ht as [-> | [H9 ->]].
  - clear C2. destruct (storedTime _) as [v|]; [|discriminate].
    apply eqStr_eq in C1. now subst.
  - assert (E : (h <=? 9) = true) by lia. rewrite E in C2. clear C1.
    destruct (storedTime _) as [v|]; [|discriminate].
    apply eqStr_eq in C2. now subst.
Qed.

Lemma storedTime_test t : storedTime t <> None -> test timeRegex t = true.
Proof.
  unfold storedTime, normalizeTime, bind, get. simpl.
  destruct (test timeRegex t); simpl; congruence.
Qed.

Lemma timeRegex_form t :
  test timeRegex t = true -> exists h m, timeForm t h m.
Proof.
  intros H. apply test_Lang in H. unfold timeRegex in H.
  apply Lang_Seq_inv in H as (hp & r1 & -> & Hh & H).
  apply Lang_Seq_inv in H as (c0 & r2 & -> & Hc & H).
  apply Lang_Seq_inv in H as (p0 & q0 & -> & Hp & Hq).
  apply Lang_Cls_inv in Hc as (c & -> & Hc). apply isChar_spec in Hc as ->.
  apply Lang_Cls_inv in Hp as (p & -> & Hp).
  apply Lang_Cls_inv in Hq as (q & -> & Hq).
  apply inRange_digit in Hp as (pv & -> & Hp); [|vm_compute; discriminate].
  apply inRange_digit in Hq as (qv & -> & Hq); [|vm_compute; discriminate].
  change (Z.of_N (code "5") - 48) with 5 in Hp.
  change (Z.of_N (code "9") - 48) with 9 in Hq.
  assert (Em : [digit pv] ++ [digit qv] = twoDigits (10 * pv + qv))
    by (rewrite twoDigits_val by lia; reflexivity).
  apply Lang_Alt_inv in Hh as [Hh | Hh];
    apply Lang_Seq_inv in Hh as (a0 & b0 & -> & Ha & Hb).
  - apply Lang_Cls_inv in Hb as (b & -> & Hb).
    apply inRange_digit in Hb as (bv & -> & Hb); [|vm_compute; discriminate].
    change (Z.of_N (code "9") - 48) with 9 in Hb.
    apply Lang_Alt_inv in Ha as [Ha | Ha].
    + apply Lang_Cls_inv in Ha as (a & -> & Ha).
      apply inRange_digit in Ha as (av & -> & Ha); [|vm_compute; discriminate].
      change (Z.of_N (code "1") - 48) with 1 in Ha.
      exists (10 * av + bv), (10 * pv + qv).
      split; [lia|]. split; [lia|]. left.
      rewrite twoDigits_val by lia. rewrite <- Em. reflexivity.
    + apply Lang_Eps_inv in Ha as ->.
      exists bv, (10 * pv + qv).
      split; [lia|]. split; [lia|]. right. split; [lia|].
      rewrite <- Em. reflexivity.
  - apply Lang_Cls_inv in Ha as (a & -> & Ha). apply isChar_spec in Ha as ->.
    apply Lang_Cls_inv in Hb as (b & -> & Hb).
    apply inRange_digit in Hb as (bv & -> & Hb); [|vm_compute; discriminate].
    change (Z.of_N (code "3") - 48) with 3 in Hb.
    exists (10 * 2 + bv), (10 * pv + qv).
    split; [lia|]. split; [lia|]. left.
    rewrite twoDigits_val by lia. rewrite <- Em. reflexivity.
Qed.

Lemma normalizeTime_run st :
  normalizeTime st =
  match storedTime (time (this st)) with
  | Some v => (mkState (setTime v (this st)) (env st), Ok tt)
  | None => (st, Throw (lit "Time must be in HH:MM format"))
  end.
Proof.
  destruct (normalizeTime_stored st) as [E | [T N]]; [exact E|].
  apply timeRegex_form in T as (h & m & F).
  apply timeForm_stored in F. congruence.
Qed.

End TimeFacts.

(* ================================================================== *)
(** ** Day numbers and the calendar *)
(* ================================================================== *)

Module DateFacts.
Import JS Spec Run ESDate.
Local Open Scope Z_scope.

Lemma DayFromYear_step y : DayFromYear (y + 1) = DayFromYear y + DaysInYear y.
Proof.
unfold DayFromYear, DaysInYear.
destruct (Z.eqb_spec (y mod 400) 0); [Z.div_mod_to_equations; lia|].
destruct (Z.eqb_spec (y mod 100) 0); [Z.div_mod_to_equations; lia|].
destruct (Z.eqb_spec (y mod 4) 0); Z.div_mod_to_equations; lia.
Qed.

Lemma DaysInYear_cases y : DaysInYear y = 365 \/ DaysInYear y = 366.
Proof.
unfold DaysInYear.
destruct (y mod 400 =? 0); auto.
destruct (y mod 100 =? 0); auto.
destruct (y mod 4 =? 0); auto.
Qed.

Lemma DayFromYear_grow n : forall y,
  DayFromYear y + 365 * Z.of_nat n <= DayFromYear (y + Z.of_nat n).
Proof.
induction n as [|n IH]; intros y.
- replace (y + Z.of_nat 0) with y by lia. lia.
- replace (y + Z.of_nat (S n)) with ((y + 1) + Z.of_nat n) by lia.
  specialize (IH (y + 1)). rewrite DayFromYear_step in IH.
  destruct (DaysInYear_cases y); lia.
Qed.

Lemma DayFromYear_lt y1 y2 : y1 < y2 -> DayFromYear (y1 + 1) <= DayFromYear y2.
Proof.
intros H. pose proof (DayFromYear_grow (Z.to_nat (y2 - (y1 + 1))) (y1 + 1)) as G.
replace (y1 + 1 + Z.of_nat (Z.to_nat (y2 - (y1 + 1)))) with y2 in G by lia. lia.
Qed.

Lemma yearSearch_spec d : forall fuel y,
  DayFromYear y <= d -> d - DayFromYear y < 365 * (Z.of_nat fuel + 1) ->
  DayFromYear (yearSearch fuel y d) <= d < DayFromYear (yearSearch fuel y d + 1).
Proof.
induction fuel as [|f IH]; intros y Hlo Hhi; simpl.
- rewrite DayFromYear_step. destruct (DaysInYear_cases y); lia.
- destruct (Z.leb_spec (DayFromYear (y + 1)) d) as [Hle | Hgt].
  + apply IH; [assumption|].
    rewrite DayFromYear_step in *. destruct (DaysInYear_cases y); lia.
  + lia.
Qed.

Lemma YearFromDay_spec d :
  DayFromYear (YearFromDay d) <= d < DayFromYear (YearFromDay d + 1).
Proof.
unfold YearFromDay.
set (y0 := 1970 + (if 0 <=? d then d / 366 else d / 365)).
assert (H0 : DayFromYear y0 <= d).
{ unfold y0, DayFromYear. destruct (Z.leb_spec 0 d); Z.div_mod_to_equations; lia. }
apply yearSearch_spec; [assumption|].
rewrite Z2Nat.id by (apply Z.div_pos; lia).
Z.div_mod_to_equations; lia.
Qed.

Lemma YearFromDay_unique y d :
  DayFromYear y <= d < DayFromYear (y + 1) -> YearFromDay d = y.
Proof.
intros H. pose proof (YearFromDay_spec d) as HS.
destruct (Z.lt_trichotomy (YearFromDay d) y) as [Hlt | [Heq | Hgt]]; [|assumption|].
- apply DayFromYear_lt in Hlt. lia.
- apply DayFromYear_lt in Hgt. lia.
Qed.

Lemma Day_MakeDate k : Day (MakeDate k 0) = k.
Proof. unfold Day, MakeDate, msPerDay. Z.div_mod_to_equations; lia. Qed.

Lemma MakeDay_eq yr month date :
  MakeDay yr month date =
  DayFromYear (yr + month / 12)
  + monthStart (month mod 12) (if DaysInYear (yr + month / 12) =? 366 then 1 else 0)
  + date - 1.
Proof.
unfold MakeDay, TimeFromYear, Day. rewrite <- Z.mul_add_distr_l.
rewrite Z.mul_comm, Z.div_mul by (unfold msPerDay; lia). reflexivity.
Qed.

Lemma DaysInYear_leapOf y : DaysInYear y = 365 + leapOf y.
Proof. unfold leapOf. destruct (DaysInYear_cases y) as [-> | ->]; reflexivity. Qed.

Lemma leapOf_cases y : leapOf y = 0 \/ leapOf y = 1.
Proof. unfold leapOf. destruct (DaysInYear y =? 366); auto. Qed.

(** The civil reading of a day that lies in year [y]. *)
Lemma year_of_day t y :
  DayFromYear y <= Day t < DayFromYear y + DaysInYear y ->
  YearFromTime t = y /\ InLeapYear t = leapOf y /\
  DayWithinYear t = Day t - DayFromYear y.
Proof.
intros H. assert (E : YearFromTime t = y).
{ apply YearFromDay_unique. rewrite DayFromYear_step. assumption. }
unfold InLeapYear, DayWithinYear. rewrite E. auto.
Qed.

Lemma DayWithinYear_range t :
  0 <= DayWithinYear t < 365 + InLeapYear t.
Proof.
unfold DayWithinYear, InLeapYear, YearFromTime.
pose proof (YearFromDay_spec (Day t)) as HS. rewrite DayFromYear_step in HS.
fold (leapOf (YearFromDay (Day t))).
rewrite (DaysInYear_leapOf (YearFromDay (Day t))) in HS. lia.
Qed.

Lemma InLeapYear_cases t : InLeapYear t = 0 \/ InLeapYear t = 1.
Proof. unfold InLeapYear. destruct (_ =? 366); auto. Qed.

Ltac split_ltb :=
  repeat match goal with
         | |- context [?a <? ?b] => destruct (Z.ltb_spec a b); cbv beta iota
         end.

Lemma MonthFromTime_range t : 0 <= MonthFromTime t <= 11.
Proof. unfold MonthFromTime. split_ltb; lia. Qed.

Lemma DateFromTime_range t : 1 <= DateFromTime t <= 31.
Proof.
pose proof (DayWithinYear_range t) as R.
unfold DateFromTime, MonthFromTime.
destruct (InLeapYear_cases t) as [E | E]; rewrite E in *;
  split_ltb; cbv beta iota delta [monthStart]; lia.
Qed.

Lemma isLeap_leapOf y : leapOf y = if isLeap y then 1 else 0.
Proof.
unfold leapOf, DaysInYear, isLeap.
destruct (Z.eqb_spec (y mod 400) 0) as [E4|E4].
- rewrite orb_true_r. reflexivity.
- rewrite orb_false_r. destruct (Z.eqb_spec (y mod 100) 0) as [E1|E1].
  + rewrite andb_false_r. reflexivity.
  + rewrite andb_true_r. destruct (Z.eqb_spec (y mod 4) 0); reflexivity.
Qed.

Lemma month_cases m : 1 <= m <= 12 ->
  m = 1 \/ m = 2 \/ m = 3 \/ m = 4 \/ m = 5 \/ m = 6 \/ m = 7 \/ m = 8 \/
  m = 9 \/ m = 10 \/ m = 11 \/ m = 12.
Proof. lia. Qed.

Ltac by_month y m Hm :=
  let E := fresh "E" in
  destruct (leapOf_cases y) as [E | E]; rewrite E in *;
  destruct (month_cases m Hm) as [->|[->|[->|[->|[->|[->|[->|[->|[->|[->|[->| ->]]]]]]]]]]];
  change (1 - 1) with 0 in *; change (2 - 1) with 1 in *;
  change (3 - 1) with 2 in *; change (4 - 1) with 3 in *;
  change (5 - 1) with 4 in *; change (6 - 1) with 5 in *;
  change (7 - 1) with 6 in *; change (8 - 1) with 7 in *;
  change (9 - 1) with 8 in *; change (10 - 1) with 9 in *;
  change (11 - 1) with 10 in *; change (12 - 1) with 11 in *;
  cbv beta iota delta [monthStart daysInMonth] in *.

(** The day reached from the first of month [m] of year [y] by [d - 1]
    days lies in year [y] when [d] is a day of that month, or when the
    month is not December and [d] is at most 31. *)
Lemma day_in_year y m d :
  1 <= m <= 12 -> 1 <= d <= 31 -> (d <= daysInMonth y m \/ m <= 11) ->
  0 <= monthStart (m - 1) (leapOf y) + d - 1 < DaysInYear y.
Proof.
intros Hm Hd Hv. rewrite (DaysInYear_leapOf y).
assert (Hdim : m = 2 -> daysInMonth y m = 28 + leapOf y).
{ intros ->. cbv beta iota delta [daysInMonth]. rewrite isLeap_leapOf. destruct (isLeap y); reflexivity. }
by_month y m Hm; try specialize (Hdim eq_refl); lia.
Qed.

(** It reads back as ([y], [m], [d]) when [d] is a day of the month. *)
Lemma read_back t y m d :
  1 <= m <= 12 -> 1 <= d <= daysInMonth y m ->
  Day t = DayFromYear y + monthStart (m - 1) (leapOf y) + d - 1 ->
  YearFromTime t = y /\ MonthFromTime t + 1 = m /\ DateFromTime t = d.
Proof.
intros Hm Hd Ht.
assert (Hdim : m = 2 -> daysInMonth y m = 28 + leapOf y).
{ intros ->. cbv beta iota delta [daysInMonth]. rewrite isLeap_leapOf. destruct (isLeap y); reflexivity. }
assert (Hd31 : d <= 31).
{ by_month y m Hm; try specialize (Hdim eq_refl); lia. }
destruct (year_of_day t y) as (EY & EL & EW).
{ pose proof (day_in_year y m d Hm ltac:(lia) ltac:(lia)). lia. }
split; [assumption|].
unfold DateFromTime, MonthFromTime. rewrite EL, EW, Ht.
by_month y m Hm; try specialize (Hdim eq_refl); split_ltb; cbv beta iota delta [monthStart]; lia.
Qed.

(** It reads back in a later month when [d] is past the end of the month. *)
Lemma read_back_overflow t y m d :
  1 <= m <= 12 -> daysInMonth y m < d <= 31 ->
  Day t = DayFromYear y + monthStart (m - 1) (leapOf y) + d - 1 ->
  MonthFromTime t + 1 <> m.
Proof.
intros Hm Hd Ht.
assert (Hdim : m = 2 -> daysInMonth y m = 28 + leapOf y).
{ intros ->. cbv beta iota delta [daysInMonth]. rewrite isLeap_leapOf. destruct (isLeap y); reflexivity. }
assert (Hm11 : m <= 11).
{ destruct (Z.eq_dec m 12) as [->|]; [cbv beta iota delta [daysInMonth] in Hd; lia | lia]. }
assert (Hd1 : 1 <= d).
{ by_month y m Hm; try specialize (Hdim eq_refl); lia. }
destruct (year_of_day t y) as (_ & EL & EW).
{ pose proof (day_in_year y m d Hm ltac:(lia) ltac:(lia)). lia. }
unfold MonthFromTime. rewrite EL, EW, Ht.
by_month y m Hm; try specialize (Hdim eq_refl); split_ltb; cbv beta iota delta [monthStart]; lia.
Qed.

End DateFacts.

(* ================================================================== *)
(** ** The date step *)
(* ================================================================== *)

Module DateHook.
Import JS Regex Spec Run ESDate Hook Event JSFacts RegexFacts DateFacts TimeFacts.
Local Open Scope Z_scope.

Lemma normalizeDate_outcome st :
  normalizeDate st =
  match dateOutcome (date (this st)) with
  | Ok s => (mkState (setDate (VString s) (this st)) (env st), Ok tt)
  | Throw e => (st, Throw e)
  end.
Proof.
unfold dateOutcome, normalizeDate, bind, get.
cbn [date this fst snd].
destruct (date (this st)) as [s|]; [|reflexivity].
destruct (test dateRegex s); cbv beta iota delta [negb]; [|reflexivity].
destruct (_ || _); reflexivity.
Qed.

Lemma fourDigits_val a b c d :
  0 <= a <= 9 -> 0 <= b <= 9 -> 0 <= c <= 9 -> 0 <= d <= 9 ->
  fourDigits (1000 * a + 100 * b + 10 * c + d) = [digit a; digit b; digit c; digit d].
Proof.
intros Ha Hb Hc Hd. unfold fourDigits.
replace ((1000 * a + 100 * b + 10 * c + d) / 1000) with a by (Z.div_mod_to_equations; lia).
replace ((1000 * a + 100 * b + 10 * c + d) / 100 mod 10) with b by (Z.div_mod_to_equations; lia).
replace ((1000 * a + 100 * b + 10 * c + d) / 10 mod 10) with c by (Z.div_mod_to_equations; lia).
replace ((1000 * a + 100 * b + 10 * c + d) mod 10) with d by (Z.div_mod_to_equations; lia).
reflexivity.
Qed.

Lemma parseInt10_twoDigits n : 0 <= n <= 99 -> parseInt10 (twoDigits n) = n.
Proof.
intros H. unfold parseInt10, twoDigits. cbn [fold_left].
rewrite !digitVal_digit by (Z.div_mod_to_equations; lia).
Z.div_mod_to_equations; lia.
Qed.

Lemma parseInt10_fourDigits n : 0 <= n <= 9999 -> parseInt10 (fourDigits n) = n.
Proof.
intros H. unfold parseInt10, fourDigits. cbn [fold_left].
rewrite !digitVal_digit by (Z.div_mod_to_equations; lia).
Z.div_mod_to_equations; lia.
Qed.

Lemma Lang_digit2 s :
  Lang (Rep 2 (Cls isDigit)) s <-> exists n, 0 <= n <= 99 /\ s = twoDigits n.
Proof.
split.
- intros H. simpl in H.
  apply Lang_Seq_inv in H as (s1 & r1 & -> & H1 & H).
  apply Lang_Seq_inv in H as (s2 & r2 & -> & H2 & H).
  apply Lang_Eps_inv in H as ->.
  apply Lang_Cls_inv in H1 as (c1 & -> & H1). apply isDigit_digit in H1 as (a & -> & Ha).
  apply Lang_Cls_inv in H2 as (c2 & -> & H2). apply isDigit_digit in H2 as (b & -> & Hb).
  exists (10 * a + b). split; [lia|]. now rewrite twoDigits_val.
- intros (n & Hn & ->). unfold twoDigits. simpl.
  change [digit (n / 10); digit (n mod 10)]
    with ([digit (n / 10)] ++ [digit (n mod 10)] ++ []).
  repeat constructor; apply (digit_inRange "9"); try (vm_compute; discriminate);
    change (Z.of_N (code "9") - 48) with 9; Z.div_mod_to_equations; lia.
Qed.

Lemma Lang_digit4 s :
  Lang (Rep 4 (Cls isDigit)) s <-> exists n, 0 <= n <= 9999 /\ s = fourDigits n.
Proof.
split.
- intros H. simpl in H.
  apply Lang_Seq_inv in H as (s1 & r1 & -> & H1 & H).
  apply Lang_Seq_inv in H as (s2 & r2 & -> & H2 & H).
  apply Lang_Seq_inv in H as (s3 & r3 & -> & H3 & H).
  apply Lang_Seq_inv in H as (s4 & r4 & -> & H4 & H).
  apply Lang_Eps_inv in H as ->.
  apply Lang_Cls_inv in H1 as (c1 & -> & H1). apply isDigit_digit in H1 as (a & -> & Ha).
  apply Lang_Cls_inv in H2 as (c2 & -> & H2). apply isDigit_digit in H2 as (b & -> & Hb).
  apply Lang_Cls_inv in H3 as (c3 & -> & H3). apply isDigit_digit in H3 as (c & -> & Hc).
  apply Lang_Cls_inv in H4 as (c4 & -> & H4). apply isDigit_digit in H4 as (d & -> & Hd).
  exists (1000 * a + 100 * b + 10 * c + d). split; [lia|]. now rewrite fourDigits_val.
- intros (n & Hn & ->). unfold fourDigits. simpl.
  change [digit (n / 1000); digit (n / 100 mod 10); digit (n / 10 mod 10); digit (n mod 10)]
    with ([digit (n / 1000)] ++ [digit (n / 100 mod 10)] ++ [digit (n / 10 mod 10)]
          ++ [digit (n mod 10)] ++ []).
  repeat constructor; apply (digit_inRange "9"); try (vm_compute; discriminate);
    change (Z.of_N (code "9") - 48) with 9; Z.div_mod_to_equations; lia.
Qed.

(** The strings of [dateRegex]. *)
Lemma dateRegex_iso s :
  test dateRegex s = true <->
  exists y m d, 0 <= y <= 9999 /\ 0 <= m <= 99 /\ 0 <= d <= 99 /\ s = isoDate y m d.
Proof.
rewrite test_Lang. unfold dateRegex. split.
- intros H.
  apply Lang_Seq_inv in H as (sy & r1 & -> & Hy & H).
  apply Lang_Seq_inv in H as (h1 & r2 & -> & Hh1 & H).
  apply Lang_Seq_inv in H as (sm & r3 & -> & Hm & H).
  apply Lang_Seq_inv in H as (h2 & sd & -> & Hh2 & Hd).
  apply Lang_digit4 in Hy as (y & Hy & ->).
  apply Lang_digit2 in Hm as (m & Hm & ->).
  apply Lang_digit2 in Hd as (d & Hd & ->).
  apply Lang_Cls_inv in Hh1 as (c1 & -> & Hc1).
  unfold isHyphen in Hc1. apply isChar_spec in Hc1 as ->.
  apply Lang_Cls_inv in Hh2 as (c2 & -> & Hc2).
  unfold isHyphen in Hc2. apply isChar_spec in Hc2 as ->.
  exists y, m, d. repeat split; try lia.
- intros (y & m & d & Hy & Hm & Hd & ->). unfold isoDate.
  constructor; [apply Lang_digit4; eauto|].
  constructor; [now constructor|].
  constructor; [apply Lang_digit2; eauto|].
  constructor; [now constructor|]. apply Lang_digit2; eauto.
Qed.

Lemma groups_isoDate y m d :
  group1 (isoDate y m d) = fourDigits y /\
  group2 (isoDate y m d) = twoDigits m /\
  group3 (isoDate y m d) = twoDigits d.
Proof. repeat split. Qed.

Lemma DayFromYear_bounds y :
  0 <= y <= 9999 -> -720000 <= DayFromYear y <= 2933000.
Proof. intros H. unfold DayFromYear. Z.div_mod_to_equations; lia. Qed.

Lemma daysInMonth_bound y m : 1 <= m <= 12 -> 28 <= daysInMonth y m <= 31.
Proof.
intros Hm.
destruct (month_cases m Hm) as [->|[->|[->|[->|[->|[->|[->|[->|[->|[->|[->| ->]]]]]]]]]]];
  cbv beta iota delta [daysInMonth]; try lia.
destruct (isLeap y); lia.
Qed.

Lemma mismatch_time y m d t :
  t = MakeDate (MakeDay (MakeFullYear y) (m - 1) d) 0 ->
  mismatch y m d =
  if Z.abs t <=? 8640000000000000
  then negb (YearFromTime t =? y) || negb (MonthFromTime t + 1 =? m)
       || negb (DateFromTime t =? d)
  else true.
Proof.
intros Et. unfold mismatch, UTC. rewrite <- Et. unfold TimeClip.
destruct (Z.abs t <=? 8640000000000000) eqn:EC.
- cbn [newDate]. unfold TimeClip. rewrite EC. reflexivity.
- reflexivity.
Qed.

Lemma MakeFullYear_fix y : 0 <= y -> MakeFullYear y = y <-> 100 <= y.
Proof.
intros Hy. unfold MakeFullYear.
destruct (Z.leb_spec 0 y); destruct (Z.leb_spec y 99); cbn [andb]; lia.
Qed.

Lemma Day_of_components yr m d t :
  1 <= m <= 12 ->
  t = MakeDate (MakeDay yr (m - 1) d) 0 ->
  Day t = DayFromYear yr + monthStart (m - 1) (leapOf yr) + d - 1.
Proof.
intros Hm ->. rewrite Day_MakeDate, MakeDay_eq.
replace ((m - 1) / 12) with 0 by (Z.div_mod_to_equations; lia).
replace ((m - 1) mod 12) with (m - 1) by (Z.div_mod_to_equations; lia).
rewrite Z.add_0_r. reflexivity.
Qed.

Lemma time_of_Day k : MakeDate k 0 = k * 86400000.
Proof. unfold MakeDate, msPerDay. lia. Qed.

(** The components read back exactly for the real dates from year 100 on. *)
Lemma mismatch_false_iff y m d :
  0 <= y <= 9999 -> 0 <= m <= 99 -> 0 <= d <= 99 ->
  mismatch y m d = false <-> (100 <= y /\ realDate y m d).
Proof.
intros Hy Hm Hd. unfold realDate.
remember (MakeFullYear y) as yr eqn:Eyr.
remember (MakeDate (MakeDay yr (m - 1) d) 0) as t eqn:Et.
rewrite (mismatch_time y m d t) by (rewrite <- Eyr; exact Et).
pose proof (MonthFromTime_range t) as RM. pose proof (DateFromTime_range t) as RD.
split.
- intros H. destruct (Z.abs t <=? 8640000000000000); [|discriminate].
  apply orb_false_iff in H as [H HD]. apply orb_false_iff in H as [HY HM].
  apply negb_false_iff, Z.eqb_eq in HY, HM, HD.
  assert (Hm12 : 1 <= m <= 12) by lia.
  pose proof (Day_of_components yr m d t Hm12 Et) as Ht.
  destruct (Z.le_gt_cases d (daysInMonth yr m)) as [Hle | Hgt].
  + destruct (read_back t yr m d) as (EY & _); [lia | lia | assumption |].
    assert (Hyr : yr = y) by congruence.
    rewrite Hyr in Eyr. symmetry in Eyr. apply MakeFullYear_fix in Eyr; [|lia].
    rewrite Hyr in Hle. lia.
  + exfalso. apply (read_back_overflow t yr m d); [lia | lia | assumption | lia].
- intros (H100 & Hm12 & Hdim).
  pose proof (daysInMonth_bound y m Hm12) as B31.
  assert (Hyr : yr = y) by (rewrite Eyr; apply MakeFullYear_fix; lia).
  rewrite Hyr in Et.
  pose proof (Day_of_components y m d t Hm12 Et) as Ht.
  destruct (read_back t y m d) as (EY & EM & ED); [lia | lia | assumption |].
  assert (EC : (Z.abs t <=? 8640000000000000) = true).
  { apply Z.leb_le. pose proof (DayFromYear_bounds y Hy) as B.
    pose proof (day_in_year y m d Hm12 ltac:(lia) ltac:(lia)) as W.
    pose proof (DaysInYear_cases y) as C.
    assert (Et' : t = Day t * 86400000).
    { rewrite Et at 1. rewrite time_of_Day. f_equal.
      rewrite Et. symmetry. apply Day_MakeDate. }
    rewrite Et', Ht. lia. }
  rewrite EC, EY, EM, ED, !Z.eqb_refl. reflexivity.
Qed.

Lemma check2_all : forallb check2 (zrange 0 100) = true.
Proof. vm_compute. reflexivity. Qed.

Lemma pad2_String n : 0 <= n <= 99 -> padStart0 2 (String_ n) = twoDigits n.
Proof.
intros H. pose proof check2_all as C. rewrite forallb_forall in C.
apply eqStr_eq, C, in_zrange. lia.
Qed.

Lemma String_fourDigits n : 1000 <= n <= 9999 -> String_ n = fourDigits n.
Proof.
intros H. unfold String_, toStringRadix, digitsN.
destruct (Z.ltb_spec n 0); [lia|].
assert (L : (3 <= N.log2 (Z.to_N n))%N).
{ change 3%N with (N.log2 8). apply N.log2_le_mono. lia. }
destruct (N.to_nat (N.log2 (Z.to_N n))) as [|[|[|k]]] eqn:E; try lia.
assert (D : forall z, 0 <= z -> (Z.to_N z / 10 = Z.to_N (z / 10))%N)
  by (intros z Hz; rewrite Z2N.inj_div by lia; reflexivity).
assert (M : forall z, 0 <= z -> (Z.to_N z mod 10)%N = Z.to_N (z mod 10))
  by (intros z Hz; rewrite Z2N.inj_mod by lia; reflexivity).
assert (Q : forall z, 0 < z -> (Z.to_N z =? 0)%N = false)
  by (intros z Hz; apply N.eqb_neq; lia).
rewrite digitsFuel_step, D, M, Q by (Z.div_mod_to_equations; lia).
rewrite digitsFuel_step, D, M, Q by (Z.div_mod_to_equations; lia).
rewrite digitsFuel_step, D, M, Q by (Z.div_mod_to_equations; lia).
rewrite digitsFuel_step, D, M by (Z.div_mod_to_equations; lia).
replace (n / 10 / 10 / 10 / 10) with 0 by (Z.div_mod_to_equations; lia).
cbn [Z.to_N N.eqb].
rewrite !digitChar_digit by (Z.div_mod_to_equations; lia).
unfold fourDigits.
replace (n / 10 / 10 / 10 mod 10) with (n / 1000) by (Z.div_mod_to_equations; lia).
replace (n / 10 / 10 mod 10) with (n / 100 mod 10) by (Z.div_mod_to_equations; lia).
reflexivity.
Qed.

(** The date step on a string of the pattern. *)
Lemma normalizeDate_string st s :
  date (this st) = VString s -> test dateRegex s = true ->
  normalizeDate st =
  let yyyy := parseInt10 (group1 s) in
  let mm := parseInt10 (group2 s) in
  let dd := parseInt10 (group3 s) in
  if mismatch yyyy mm dd
  then (st, Throw (lit "Invalid date components"))
  else assignDate (String_ yyyy ++ hyphen ++ padStart0 2 (String_ mm)
                   ++ hyphen ++ padStart0 2 (String_ dd)) st.
Proof.
intros E T. unfold normalizeDate, bind, get, mismatch. rewrite E, T.
cbv zeta. cbn [negb].
destruct (_ || _); reflexivity.
Qed.

(** What the hook does with a string of the pattern. *)
Lemma dateOutcome_iso y m d :
  0 <= y <= 9999 -> 0 <= m <= 99 -> 0 <= d <= 99 ->
  dateOutcome (VString (isoDate y m d)) =
  if mismatch y m d then Throw (lit "Invalid date components")
  else Ok (String_ y ++ lit "-" ++ twoDigits m ++ lit "-" ++ twoDigits d).
Proof.
intros Hy Hm Hd. unfold dateOutcome.
assert (T : test dateRegex (isoDate y m d) = true).
{ apply dateRegex_iso. exists y, m, d. auto. }
match goal with
| |- context [normalizeDate ?st] =>
    rewrite (normalizeDate_string st (isoDate y m d) eq_refl T)
end. cbv zeta.
destruct (groups_isoDate y m d) as (-> & -> & ->).
rewrite parseInt10_fourDigits, !parseInt10_twoDigits by assumption.
destruct (mismatch y m d); [reflexivity|].
rewrite !pad2_String by assumption. reflexivity.
Qed.

End DateHook.

(* ================================================================== *)
(** ** The pipeline on the title *)
(* ================================================================== *)

Module SlugFacts.
Import JS Spec Run Hook Event JSFacts TimeFacts.

(** *** Characters *)

Ltac all_chars c := destruct c as [[] [] [] [] [] [] [] []]; vm_compute; try reflexivity; try discriminate.

Lemma lowerChar_not_upper c : inRange "A" "Z" (lowerChar c) = false.
Proof. all_chars c. Qed.

Lemma kept_slugChar c :
  kept c = true -> inRange "A" "Z" c = false -> isSpace c = false ->
  isSlugCharU c = true.
Proof. all_chars c. Qed.

Lemma slugChar_lower c : isSlugCharU c = true -> lowerChar c = c.
Proof. all_chars c. Qed.

Lemma slugChar_notSpace c : isSlugCharU c = true -> isSpace c = false.
Proof. all_chars c. Qed.

Lemma alnum_slugChar c : isLowerAlnum c = true -> isSlugCharU c = true.
Proof. all_chars c. Qed.

Lemma alnum_notHyphen c : isLowerAlnum c = true -> isHyphen c = false.
Proof. all_chars c. Qed.

(** *** Lists *)

Lemma dropWhile_suffix p s : exists u, s = u ++ dropWhile p s.
Proof.
induction s as [|c s (u & IH)]; simpl.
- now exists [].
- destruct (p c).
  + exists (c :: u). simpl. now f_equal.
  + now exists [].
Qed.

Lemma dropWhileEnd_prefix p s : exists u, s = dropWhileEnd p s ++ u.
Proof.
unfold dropWhileEnd. destruct (dropWhile_suffix p (rev s)) as (u & E).
exists (rev u). rewrite <- rev_app_distr, <- E. now rewrite rev_involutive.
Qed.

Lemma forallb_rev q (s : str) : forallb q (rev s) = forallb q s.
Proof.
induction s as [|c s IH]; simpl; [reflexivity|].
rewrite forallb_app, IH. simpl. rewrite andb_true_r. apply andb_comm.
Qed.

Lemma forallb_dropWhile q p s :
  forallb q s = true -> forallb q (dropWhile p s) = true.
Proof.
intros H. destruct (dropWhile_suffix p s) as (u & E). rewrite E in H.
rewrite forallb_app in H. now apply andb_true_iff in H.
Qed.

Lemma forallb_dropWhileEnd q p s :
  forallb q s = true -> forallb q (dropWhileEnd p s) = true.
Proof.
intros H. destruct (dropWhileEnd_prefix p s) as (u & E). rewrite E in H.
rewrite forallb_app in H. now apply andb_true_iff in H.
Qed.

Lemma dropWhile_id p s :
  forallb (fun c => negb (p c)) s = true -> dropWhile p s = s.
Proof.
destruct s as [|c s]; simpl; [reflexivity|]. intros H.
apply andb_true_iff in H as [H _]. apply negb_true_iff in H. now rewrite H.
Qed.

Lemma dropWhileEnd_id p s :
  forallb (fun c => negb (p c)) s = true -> dropWhileEnd p s = s.
Proof.
intros H. unfold dropWhileEnd. rewrite dropWhile_id.
- apply rev_involutive.
- now rewrite forallb_rev.
Qed.

Lemma forallb_impl (p q : ascii -> bool) s :
  (forall c, p c = true -> q c = true) ->
  forallb p s = true -> forallb q s = true.
Proof.
intros I H. rewrite forallb_forall in *. auto.
Qed.

(** *** Hyphens *)

Lemma noLeading_app a b :
  noLeadingHyphen (a ++ b) = true -> noLeadingHyphen a = true.
Proof. destruct a; simpl; auto. Qed.

Lemma noLeading_app_l a b :
  a <> [] -> noLeadingHyphen (a ++ b) = noLeadingHyphen a.
Proof. destruct a; simpl; congruence. Qed.

Lemma noLeading_dropWhile s : noLeadingHyphen (dropWhile isHyphen s) = true.
Proof.
induction s as [|c s IH]; simpl; [reflexivity|].
destruct (isHyphen c) eqn:E; [assumption|]. simpl. now rewrite E.
Qed.

Lemma noDouble_tail c s : noDoubleHyphen (c :: s) = true -> noDoubleHyphen s = true.
Proof. simpl. intros H. now apply andb_true_iff in H. Qed.

Lemma noDouble_suffix a b : noDoubleHyphen (a ++ b) = true -> noDoubleHyphen b = true.
Proof.
induction a as [|c a IH]; simpl; [auto|]. intros H.
apply andb_true_iff in H as [_ H]. auto.
Qed.

Lemma noDouble_prefix a b : noDoubleHyphen (a ++ b) = true -> noDoubleHyphen a = true.
Proof.
induction a as [|c a IH]; [reflexivity|].
intros H. change ((c :: a) ++ b) with (c :: (a ++ b)) in H.
cbn [noDoubleHyphen] in *. apply andb_true_iff in H as [H1 H2].
rewrite (IH H2), andb_true_r.
destruct a as [|c' a]; [simpl; now rewrite andb_false_r|].
exact H1.
Qed.

Lemma noTrailing_cons c s :
  s <> [] -> noTrailingHyphen (c :: s) = noTrailingHyphen s.
Proof.
intros H. unfold noTrailingHyphen. simpl. apply noLeading_app_l.
intros E. apply H. apply (f_equal (@rev ascii)) in E.
now rewrite rev_involutive in E.
Qed.

Lemma noDouble_app a b :
  noDoubleHyphen a = true -> noDoubleHyphen b = true ->
  noTrailingHyphen a = true -> noDoubleHyphen (a ++ b) = true.
Proof.
induction a as [|c a IH]; intros Ha Hb Ht; [assumption|].
change ((c :: a) ++ b) with (c :: (a ++ b)). cbn [noDoubleHyphen] in *.
apply andb_true_iff in Ha as [Ha1 Ha2].
destruct a as [|c' a].
- unfold noTrailingHyphen in Ht. simpl in Ht. apply negb_true_iff in Ht.
  simpl. now rewrite Ht, Hb.
- rewrite noTrailing_cons in Ht by discriminate.
  rewrite IH by assumption. rewrite andb_true_r. exact Ha1.
Qed.

Lemma replaceRuns_forallb p q s : forall b,
  q "-"%char = true ->
  forallb (fun c => p c || q c) s = true ->
  forallb q (replaceRuns p b s) = true.
Proof.
induction s as [|c s IH]; intros b Hq H; simpl; [reflexivity|].
simpl in H. apply andb_true_iff in H as [Hc Hs].
destruct (p c) eqn:E.
- destruct b; [now apply IH|]. simpl. rewrite Hq. now apply IH.
- simpl in Hc. simpl. rewrite Hc. now apply IH.
Qed.

Lemma replaceRuns_hyphen s : forall b,
  noDoubleHyphen (replaceRuns isHyphen b s) = true /\
  (b = true -> noLeadingHyphen (replaceRuns isHyphen b s) = true).
Proof.
induction s as [|c s IH]; intros b; simpl; [auto|].
destruct (IH true) as [D1 L1]. destruct (IH false) as [D0 _].
destruct (isHyphen c) eqn:E.
- destruct b.
  + auto.
  + split; [|discriminate]. cbn [noDoubleHyphen]. rewrite D1, (L1 eq_refl).
    now rewrite andb_false_r.
- split.
  + cbn [noDoubleHyphen]. now rewrite E, D0.
  + intros _. simpl. now rewrite E.
Qed.

(** *** The base of a slug *)

Lemma stripHyphens_shape s :
  noDoubleHyphen s = true ->
  noLeadingHyphen (stripHyphens s) = true /\
  noTrailingHyphen (stripHyphens s) = true /\
  noDoubleHyphen (stripHyphens s) = true.
Proof.
intros D. unfold stripHyphens.
destruct (dropWhile_suffix isHyphen s) as (u & Eu).
destruct (dropWhileEnd_prefix isHyphen (dropWhile isHyphen s)) as (v & Ev).
pose proof (noLeading_dropWhile s) as L.
rewrite Eu in D. apply noDouble_suffix in D.
rewrite Ev in L, D. repeat split.
- now apply noLeading_app in L.
- unfold noTrailingHyphen, dropWhileEnd. rewrite rev_involutive.
  apply noLeading_dropWhile.
- now apply noDouble_prefix in D.
Qed.

Lemma slugBase_chars t : forallb isSlugCharU (slugBase t) = true.
Proof.
unfold slugBase, stripHyphens.
apply forallb_dropWhileEnd, forallb_dropWhile.
apply replaceRuns_forallb; [reflexivity|].
apply forallb_impl with (p := isSlugCharU);
  [intros c H; rewrite H; apply orb_true_r|].
apply replaceRuns_forallb; [reflexivity|].
unfold keepOnly, trim, toLowerCase.
apply forallb_forall. intros c Hc. apply filter_In in Hc as [Hin Hk].
assert (Hk' : kept c = true) by exact Hk. clear Hk.
destruct (isSpace c) eqn:Es; [reflexivity|]. cbn [orb].
apply kept_slugChar; [exact Hk'| |exact Es].
assert (U : forallb (fun c => negb (inRange "A" "Z" c)) (map lowerChar t) = true).
{ apply forallb_forall. intros x Hx. apply in_map_iff in Hx as (x0 & <- & _).
  now rewrite lowerChar_not_upper. }
apply (forallb_dropWhile _ isSpace), (forallb_dropWhileEnd _ isSpace) in U.
rewrite forallb_forall in U. apply U in Hin. now apply negb_true_iff in Hin.
Qed.

Lemma slugBase_shape t :
  noLeadingHyphen (slugBase t) = true /\
  noTrailingHyphen (slugBase t) = true /\
  noDoubleHyphen (slugBase t) = true.
Proof. apply stripHyphens_shape, replaceRuns_hyphen. Qed.

End SlugFacts.

(* ================================================================== *)
(** ** Tokens, time stamps and suffixed slugs *)
(* ================================================================== *)

Module SlugRun.
Import JS Spec Run Hook Event JSFacts TimeFacts SlugFacts.

(** *** Tokens and time stamps *)

Lemma alphabet_nth n :
  (n < List.length alphabet)%nat ->
  exists c, nth_error alphabet n = Some c /\ isLowerAlnum c = true.
Proof.
intros H.
do 36 (destruct n as [|n]; [eexists; split; reflexivity|]).
simpl in H. lia.
Qed.

Lemma tokenAt_token w k : drawsInRange w k 6 -> isToken (tokenAt w k) = true.
Proof.
intros H. unfold tokenAt. cbn [seq map].
destruct (alphabet_nth (draws w k)) as (c0 & -> & H0); [apply H; lia|].
destruct (alphabet_nth (draws w (S k))) as (c1 & -> & H1); [apply H; lia|].
destruct (alphabet_nth (draws w (S (S k)))) as (c2 & -> & H2); [apply H; lia|].
destruct (alphabet_nth (draws w (S (S (S k))))) as (c3 & -> & H3); [apply H; lia|].
destruct (alphabet_nth (draws w (S (S (S (S k)))))) as (c4 & -> & H4); [apply H; lia|].
destruct (alphabet_nth (draws w (S (S (S (S (S k))))))) as (c5 & -> & H5); [apply H; lia|].
unfold isToken. cbn [joinOpt flat_map app List.length Nat.eqb forallb andb].
now rewrite H0, H1, H2, H3, H4, H5.
Qed.

Lemma isToken_spec s :
  isToken s = true -> List.length s = 6%nat /\ forallb isLowerAlnum s = true.
Proof.
unfold isToken. intros H. apply andb_true_iff in H as [H1 H2].
apply Nat.eqb_eq in H1. auto.
Qed.

Lemma digitChar_alnum d : (d < 36)%N -> isLowerAlnum (digitChar d) = true.
Proof.
intros H. unfold isLowerAlnum, digitChar, isDigit.
destruct (N.ltb_spec d 10).
- assert (E : code (ascii_of_N (48 + d)) = (48 + d)%N)
    by (apply N_ascii_embedding; lia).
  apply orb_true_iff. right. apply inRange_spec. rewrite E.
  change (code "0") with 48%N. change (code "9") with 57%N. lia.
- assert (E : code (ascii_of_N (87 + d)) = (87 + d)%N)
    by (apply N_ascii_embedding; lia).
  apply orb_true_iff. left. apply inRange_spec. rewrite E.
  change (code "a") with 97%N. change (code "z") with 122%N. lia.
Qed.

Lemma digitsFuel_alnum fuel : forall n acc,
  forallb isLowerAlnum acc = true ->
  forallb isLowerAlnum (digitsFuel fuel 36 n acc) = true.
Proof.
induction fuel as [|f IH]; intros n acc H; simpl; [assumption|].
assert (H' : forallb isLowerAlnum (digitChar (n mod 36) :: acc) = true).
{ simpl. rewrite digitChar_alnum by (apply N.mod_lt; discriminate). assumption. }
destruct (n / 36 =? 0)%N; [assumption | now apply IH].
Qed.

Lemma digitsFuel_nonempty fuel b : forall n acc,
  acc <> [] -> digitsFuel fuel b n acc <> [].
Proof.
induction fuel as [|f IH]; intros n acc H; simpl; [assumption|].
destruct (n / b =? 0)%N; [discriminate | apply IH; discriminate].
Qed.

Lemma digitsN_nonempty b n : digitsN b n <> [].
Proof.
unfold digitsN. simpl. destruct (n / b =? 0)%N; [discriminate|].
apply digitsFuel_nonempty. discriminate.
Qed.

Lemma timestamp_alnum n :
  (0 <= n)%Z ->
  toStringRadix 36 n <> [] /\ forallb isLowerAlnum (toStringRadix 36 n) = true.
Proof.
intros H. unfold toStringRadix. destruct (Z.ltb_spec n 0); [lia|]. split.
- apply digitsN_nonempty.
- unfold digitsN. now apply digitsFuel_alnum.
Qed.

Lemma timestamp_slugChars n : forallb isSlugCharU (toStringRadix 36 n) = true.
Proof.
assert (D : forall m, forallb isSlugCharU (digitsN 36 m) = true).
{ intros m. apply forallb_impl with (p := isLowerAlnum); [apply alnum_slugChar|].
  unfold digitsN. now apply digitsFuel_alnum. }
unfold toStringRadix. destruct (n <? 0)%Z; [|apply D].
cbn [forallb]. now rewrite D.
Qed.

(** *** A base followed by a hyphen and a suffix *)

Lemma alnum_noHyphens s :
  forallb isLowerAlnum s = true ->
  noLeadingHyphen s = true /\ noTrailingHyphen s = true /\ noDoubleHyphen s = true.
Proof.
intros H.
assert (L : forall u, forallb isLowerAlnum u = true -> noLeadingHyphen u = true).
{ intros [|c u]; simpl; [reflexivity|]. intros Hu.
  apply andb_true_iff in Hu as [Hc _]. now rewrite alnum_notHyphen. }
repeat split.
- now apply L.
- unfold noTrailingHyphen. apply L. now rewrite forallb_rev.
- induction s as [|c s IH]; [reflexivity|]. simpl in H.
  apply andb_true_iff in H as [Hc Hs]. cbn [noDoubleHyphen].
  rewrite (IH Hs), (alnum_notHyphen _ Hc). reflexivity.
Qed.

Lemma noTrailing_app_r a b :
  b <> [] -> noTrailingHyphen (a ++ b) = noTrailingHyphen b.
Proof.
intros H. unfold noTrailingHyphen. rewrite rev_app_distr.
apply noLeading_app_l. intros E. apply H.
apply (f_equal (@rev ascii)) in E. now rewrite rev_involutive in E.
Qed.

Lemma suffixed_shape base suffix :
  forallb isSlugCharU base = true ->
  noTrailingHyphen base = true -> noDoubleHyphen base = true ->
  suffix <> [] -> forallb isLowerAlnum suffix = true ->
  base ++ hyphen ++ suffix <> [] /\
  forallb isSlugCharU (base ++ hyphen ++ suffix) = true /\
  noTrailingHyphen (base ++ hyphen ++ suffix) = true /\
  noDoubleHyphen (base ++ hyphen ++ suffix) = true /\
  (base <> [] -> noLeadingHyphen base = true ->
   noLeadingHyphen (base ++ hyphen ++ suffix) = true).
Proof.
intros Hc Ht Hd Hne Ha.
destruct (alnum_noHyphens suffix Ha) as (SL & ST & SD).
assert (Hs : forallb isSlugCharU suffix = true)
  by (apply forallb_impl with (p := isLowerAlnum); [apply alnum_slugChar | assumption]).
repeat split.
- destruct base; discriminate.
- rewrite !forallb_app, Hc, Hs. reflexivity.
- rewrite app_assoc. rewrite noTrailing_app_r by assumption. exact ST.
- apply noDouble_app; [assumption| |assumption].
  change (hyphen ++ suffix) with ("-"%char :: suffix).
  cbn [noDoubleHyphen]. now rewrite SL, SD.
- intros Hb Hl. now rewrite noLeading_app_l.
Qed.

(** The schema setters leave a slug over [[a-z0-9_-]] as it is. *)
Lemma slugSetters_id s : forallb isSlugCharU s = true -> slugSetters s = s.
Proof.
intros H. unfold slugSetters, trim, toLowerCase.
assert (N : forallb (fun c => negb (isSpace c)) s = true).
{ apply forallb_impl with (p := isSlugCharU); [|assumption].
  intros c Hc. now rewrite slugChar_notSpace. }
rewrite (dropWhile_id isSpace s N), (dropWhileEnd_id isSpace s N).
rewrite forallb_forall in H.
rewrite <- (map_id s) at 2. apply map_ext_in. intros c Hc.
apply slugChar_lower. auto.
Qed.

End SlugRun.

(* ================================================================== *)
(** ** The slug step and the hook as a whole *)
(* ================================================================== *)

Module SlugHook.
Import JS Spec Run Hook Event JSFacts TimeFacts DateHook SlugFacts SlugRun.

Lemma deriveSlug_run st : deriveSlug st = (derived st (chosen st), Ok tt).
Proof.
destruct st as [d w]. destruct w as [ev dr k nw rd].
cbv beta iota zeta delta
  [deriveSlug retryLoop bind get ret generateShortId drawChars nextDraw
   findOneOther dateNow assignSlug modify
   chosen derived retryCandidate fallbackCandidate taken baseCandidate tokenAt
   this env events draws drawn now reads title _id fst snd
   seq map Nat.mul Nat.add].
repeat match goal with
       | |- context [existsb ?f ev] => destruct (existsb f ev)
       end; reflexivity.
Qed.

Lemma normalizeDate_frame st :
  slug (this (fst (normalizeDate st))) = slug (this st) /\
  env (fst (normalizeDate st)) = env st /\
  time (this (fst (normalizeDate st))) = time (this st) /\
  modified (this (fst (normalizeDate st))) = modified (this st).
Proof.
rewrite normalizeDate_outcome. destruct (dateOutcome _); auto.
Qed.

Lemma normalizeTime_frame st :
  slug (this (fst (normalizeTime st))) = slug (this st) /\
  env (fst (normalizeTime st)) = env st.
Proof.
rewrite normalizeTime_run. destruct (storedTime _); auto.
Qed.

Lemma preValidate_steps st : preValidate st = dateTimeSteps (afterSlug st).
Proof.
unfold preValidate, afterSlug, derives, dateTimeSteps.
unfold bind at 1 2 3. unfold get, isModified at 1. cbn [fst snd].
destruct (isNew (this st) && slugMissing (this st) || modified (this st) PTitle).
- unfold when at 1. rewrite deriveSlug_run. reflexivity.
- reflexivity.
Qed.

Lemma dateTimeSteps_frame s1 :
  slug (this (fst (dateTimeSteps s1))) = slug (this s1) /\
  env (fst (dateTimeSteps s1)) = env s1.
Proof.
unfold dateTimeSteps, bind, when, isModified, ret.
destruct (modified (this s1) PDate).
- destruct (normalizeDate_frame s1) as (D1 & D2 & _).
  destruct (normalizeDate s1) as [s2 [[]|e]]; cbn [fst] in *.
  + destruct (modified (this s2) PTime).
    * destruct (normalizeTime_frame s2) as (T1 & T2).
      rewrite T1, T2. auto.
    * auto.
  + auto.
- destruct (modified (this s1) PTime).
  + apply normalizeTime_frame.
  + auto.
Qed.

(** Slug and world after the hook are those after the slug step. *)
Lemma preValidate_after st :
  slug (this (fst (preValidate st))) = slug (this (afterSlug st)) /\
  env (fst (preValidate st)) = env (afterSlug st).
Proof. rewrite preValidate_steps. apply dateTimeSteps_frame. Qed.

(** With no slug to derive and the date not modified, the hook is its
    time step. *)
Lemma preValidate_time_only st :
  derives st = false -> modified (this st) PDate = false ->
  preValidate st = when (modified (this st) PTime) normalizeTime st.
Proof.
intros Hs Hd. rewrite preValidate_steps. unfold afterSlug. rewrite Hs.
unfold dateTimeSteps, bind, isModified. rewrite Hd. reflexivity.
Qed.





End SlugHook.

(* ================================================================== *)
(** ** The properties of the specification *)
(* ================================================================== *)

Module Claims.
Import JS Regex Spec Run Hook Event JSFacts RegexFacts TimeFacts DateFacts DateHook SlugFacts SlugRun SlugHook.
Local Open Scope Z_scope.

(** *** C1 *)

Lemma chosen_shape st :
  drawsInRange (env st) (drawn (env st)) 24 ->
  (0 <= now (env st))%Z ->
  (slugBase (title (this st)) <> [] \/ taken st (lit "untitled") = false) ->
  wellFormedSlug isSlugCharU (fst (fst (chosen st))) = true.
Proof.
intros Hdr Hnow Hguard.
set (base := slugBase (title (this st))).
pose proof (slugBase_chars (title (this st))) as Bc.
destruct (slugBase_shape (title (this st))) as (Bl & Bt & Bd).
fold base in Bc, Bl, Bt, Bd.
assert (Tok : forall i, (i <= 18)%nat ->
          isToken (tokenAt (env st) (i + drawn (env st))) = true).
{ intros i Hi. apply tokenAt_token. intros j Hj. apply Hdr. lia. }
assert (Suffixed : forall sfx, sfx <> [] -> forallb isLowerAlnum sfx = true ->
          base <> [] -> wellFormedSlug isSlugCharU (base ++ hyphen ++ sfx) = true).
{ intros sfx Hne Ha Hb.
  destruct (suffixed_shape base sfx Bc Bt Bd Hne Ha) as (N & C & T & D & L).
  unfold wellFormedSlug. rewrite C, T, D, (L Hb Bl).
  destruct (base ++ hyphen ++ sfx); [congruence | reflexivity]. }
assert (TokNe : forall tk, isToken tk = true -> tk <> [] /\ forallb isLowerAlnum tk = true).
{ intros tk H. apply isToken_spec in H as [L A]. split; [|assumption].
  intros ->. discriminate. }
assert (BaseOk : base <> [] -> wellFormedSlug isSlugCharU base = true).
{ intros Hb. unfold wellFormedSlug. rewrite Bc, Bl, Bt, Bd.
  destruct base; [congruence | reflexivity]. }
assert (Retry : forall i, (i <= 2)%nat -> base <> [] ->
          wellFormedSlug isSlugCharU (retryCandidate st i) = true).
{ intros i Hi Hb. unfold retryCandidate. fold base.
  apply Suffixed; [apply TokNe, Tok; lia | apply TokNe, Tok; lia | exact Hb]. }
assert (Fallback : base <> [] ->
          wellFormedSlug isSlugCharU (fallbackCandidate st) = true).
{ intros Hb. unfold fallbackCandidate. fold base.
  destruct (timestamp_alnum (now (env st)) Hnow) as (Tn & Ta).
  destruct (TokNe _ (Tok 18%nat ltac:(lia))) as (Kn & Ka).
  apply Suffixed; [|rewrite forallb_app, Ta; exact Ka|exact Hb].
  destruct (toStringRadix 36 (now (env st))); [congruence|discriminate]. }
unfold chosen, baseCandidate. fold base.
destruct (taken st (orElse base (lit "untitled"))) eqn:E0; cbn [negb fst].
- assert (Hb : base <> []).
  { destruct Hguard as [H | H]; [exact H|].
    intros E. rewrite E in E0. cbn [orElse] in E0. congruence. }
  destruct (taken st (retryCandidate st 0)); cbn [negb fst]; [|apply Retry; [lia|exact Hb]].
  destruct (taken st (retryCandidate st 1)); cbn [negb fst]; [|apply Retry; [lia|exact Hb]].
  destruct (taken st (retryCandidate st 2)); cbn [negb fst]; [|apply Retry; [lia|exact Hb]].
  apply Fallback, Hb.
- destruct base eqn:Eb; [reflexivity|]. apply BaseOk. discriminate.
Qed.

Lemma slugAfter_derived st :
  derives st = true ->
  slugAfter st = Some (slugSetters (fst (fst (chosen st)))).
Proof.
intros H. unfold slugAfter. destruct (preValidate_after st) as [E _].
rewrite E. unfold afterSlug. rewrite H. reflexivity.
Qed.

Lemma wellFormed_chars chars s :
  wellFormedSlug chars s = true -> forallb chars s = true.
Proof.
unfold wellFormedSlug. intros H.
repeat (apply andb_true_iff in H as [H ?]). assumption.
Qed.

(** C1 (as amended): whenever the hook derives a slug, the random draws
    are indices of the alphabet, the clock is not before the epoch, and
    the cleaned title is non-empty or [untitled] is free, the slug is
    non-empty, made of characters of [[a-z0-9_-]] only (so it has no
    upper-case letter), and has no leading, trailing or doubled hyphen. *)
Theorem derived_slug_well_formed st :
  derives st = true ->
  drawsInRange (env st) (drawn (env st)) 24 ->
  (0 <= now (env st))%Z ->
  (slugBase (title (this st)) <> [] \/ taken st (lit "untitled") = false) ->
  exists s, slugAfter st = Some s /\ wellFormedSlug isSlugCharU s = true.
Proof.
intros Hd Hdr Hnow Hguard.
pose proof (chosen_shape st Hdr Hnow Hguard) as W.
exists (fst (fst (chosen st))). split; [|exact W].
rewrite (slugAfter_derived st Hd).
now rewrite slugSetters_id by (apply wellFormed_chars with (1 := W)).
Qed.

Lemma derived_slug_well_formed_witness :
  exists s, slugAfter collidingState = Some s /\
            wellFormedSlug isSlugCharU s = true.
Proof.
apply (derived_slug_well_formed collidingState).
- reflexivity.
- intros i _. cbn [env collidingState worldOf draws alphabet].
  change (List.length (lit "0123456789abcdefghijklmnopqrstuvwxyz")) with 36%nat.
  apply Nat.mod_upper_bound. discriminate.
- vm_compute. discriminate.
- left. vm_compute. discriminate.
Defined.

(** C1 (as stated) fails: the title [a_b] is non-empty and its slug is
    [a_b], which holds an underscore, a character outside [[a-z0-9-]]. *)
Lemma slug_keeps_underscore :
  title (this underscoreState) <> [] /\
  slugAfter underscoreState = Some (lit "a_b") /\
  wellFormedSlug isSlugChar (lit "a_b") = false.
Proof. split; [|split]; vm_compute; [discriminate | reflexivity | reflexivity]. Qed.

(** *** C5 *)

(** C5: the title [!!!] has the base candidate [untitled]; with that slug
    taken by another record, the slug assigned is [-012345], the token
    after a bare hyphen, and not [untitled-012345]. *)
Theorem untitled_collision_loses_base :
  baseCandidate (title (this untitledCollision)) = lit "untitled" /\
  taken untitledCollision (lit "untitled") = true /\
  slugAfter untitledCollision = Some (lit "-012345") /\
  wellFormedSlug isSlugCharU (lit "-012345") = false.
Proof. split; [|split; [|split]]; vm_compute; reflexivity. Qed.

(** With a non-empty cleaned title, a collision on it gives the base, a
    hyphen and a token, or the base, a hyphen, the time stamp in base 36
    and a token; the fall-back is taken after three colliding retries and
    is not looked up. *)
Lemma collision_slug_suffixed st :
  derives st = true ->
  drawsInRange (env st) (drawn (env st)) 24 ->
  slugBase (title (this st)) <> [] ->
  taken st (slugBase (title (this st))) = true ->
  let base := slugBase (title (this st)) in
  exists s, slugAfter st = Some s /\ s <> base /\
    ((exists tok, isToken tok = true /\ s = base ++ lit "-" ++ tok) \/
     (exists tok, isToken tok = true /\
        s = base ++ lit "-" ++ toStringRadix 36 (now (env st)) ++ tok /\
        taken st (retryCandidate st 0) = true /\
        taken st (retryCandidate st 1) = true /\
        taken st (retryCandidate st 2) = true /\
        reads (env (fst (preValidate st))) = (4 + reads (env st))%nat)).
Proof.
intros Hd Hdr Hb Ht base.
assert (Tok : forall i, (i <= 18)%nat ->
          isToken (tokenAt (env st) (i + drawn (env st))) = true).
{ intros i Hi. apply tokenAt_token. intros j Hj. apply Hdr. lia. }
pose proof (slugBase_chars (title (this st))) as Bc. fold base in Bc.
assert (Ne : forall x, base ++ lit "-" ++ x <> base).
{ intros x E. apply (f_equal (@List.length ascii)) in E.
  rewrite !length_app in E. cbn [List.length lit list_ascii_of_string] in E. lia. }
assert (Keep : forall x, forallb isSlugCharU x = true ->
          slugSetters (base ++ lit "-" ++ x) = base ++ lit "-" ++ x).
{ intros x Hx. apply slugSetters_id. rewrite !forallb_app, Bc, Hx. reflexivity. }
assert (TokC : forall i, (i <= 18)%nat ->
          forallb isSlugCharU (tokenAt (env st) (i + drawn (env st))) = true).
{ intros i Hi. apply forallb_impl with (p := isLowerAlnum); [apply alnum_slugChar|].
  apply isToken_spec, Tok, Hi. }
destruct (preValidate_after st) as [_ Eenv].
unfold afterSlug in Eenv. rewrite Hd in Eenv.
rewrite (slugAfter_derived st Hd), Eenv.
unfold chosen, baseCandidate. fold base.
assert (Eb : orElse base (lit "untitled") = base).
{ unfold base. destruct (slugBase (title (this st))); [congruence|reflexivity]. }
rewrite Eb. fold base in Ht. rewrite Ht. cbn [negb].
assert (Retry : forall i, (i <= 2)%nat ->
  exists s, Some (slugSetters (retryCandidate st i)) = Some s /\ s <> base /\
    ((exists tok, isToken tok = true /\ s = base ++ lit "-" ++ tok) \/
     (exists tok, isToken tok = true /\
        s = base ++ lit "-" ++ toStringRadix 36 (now (env st)) ++ tok /\
        taken st (retryCandidate st 0) = true /\
        taken st (retryCandidate st 1) = true /\
        taken st (retryCandidate st 2) = true /\
        False))).
{ intros i Hi. unfold retryCandidate. fold base.
  exists (base ++ lit "-" ++ tokenAt (env st) (6 * i + drawn (env st))).
  split; [f_equal; apply Keep, (TokC (6 * i)%nat); lia|]. split; [apply Ne|].
  left. eexists. split; [apply (Tok (6 * i)%nat); lia | reflexivity]. }
destruct (taken st (retryCandidate st 0)) eqn:E0; cbn [negb fst snd derived env reads].
2:{ destruct (Retry 0%nat ltac:(lia)) as (s & Es & Hne & [H | (tok & _ & _ & _ & _ & _ & [])]).
    exists s. auto. }
destruct (taken st (retryCandidate st 1)) eqn:E1; cbn [negb fst snd derived env reads].
2:{ destruct (Retry 1%nat ltac:(lia)) as (s & Es & Hne & [H | (tok & _ & _ & _ & _ & _ & [])]).
    exists s. auto. }
destruct (taken st (retryCandidate st 2)) eqn:E2; cbn [negb fst snd derived env reads].
2:{ destruct (Retry 2%nat ltac:(lia)) as (s & Es & Hne & [H | (tok & _ & _ & _ & _ & _ & [])]).
    exists s. auto. }
unfold fallbackCandidate. fold base.
exists (base ++ lit "-" ++ toStringRadix 36 (now (env st))
        ++ tokenAt (env st) (18 + drawn (env st))).
split; [f_equal; apply Keep; rewrite forallb_app, timestamp_slugChars; apply (TokC 18%nat); lia|].
split; [apply Ne|]. right. eexists. split; [apply (Tok 18%nat); lia|].
repeat split.
Qed.

(** *** C8 *)

Lemma chosen_reads st : (1 <= snd (chosen st) <= 4)%nat.
Proof.
unfold chosen.
destruct (taken st (baseCandidate _)); cbn [negb snd]; [|lia].
destruct (taken st (retryCandidate st 0)); cbn [negb snd]; [|lia].
destruct (taken st (retryCandidate st 1)); cbn [negb snd]; [|lia].
destruct (taken st (retryCandidate st 2)); cbn [negb snd]; lia.
Qed.

(** C8: a save issues at most four [findOne] queries; when the hook
    derives a slug it looks up the base candidate first and then up to
    three suffixed candidates, stops at the first candidate that no
    other record holds and assigns it, and assigns the fall-back without
    a look-up after the third colliding retry. *)
Theorem slug_derivation_queries st :
  (reads (env (fst (preValidate st))) <= 4 + reads (env st))%nat /\
  (derives st = false ->
     reads (env (fst (preValidate st))) = reads (env st)) /\
  (derives st = true ->
     let base := baseCandidate (title (this st)) in
     let after q := (reads (env (fst (preValidate st))) = q + reads (env st))%nat in
     let assigned c := slugAfter st = Some (slugSetters c) in
     (taken st base = false -> assigned base /\ after 1%nat) /\
     (taken st base = true ->
        (taken st (retryCandidate st 0) = false ->
           assigned (retryCandidate st 0) /\ after 2%nat) /\
        (taken st (retryCandidate st 0) = true ->
           (taken st (retryCandidate st 1) = false ->
              assigned (retryCandidate st 1) /\ after 3%nat) /\
           (taken st (retryCandidate st 1) = true ->
              (taken st (retryCandidate st 2) = false ->
                 assigned (retryCandidate st 2) /\ after 4%nat) /\
              (taken st (retryCandidate st 2) = true ->
                 assigned (fallbackCandidate st) /\ after 4%nat))))).
Proof.
destruct (preValidate_after st) as [Es Ee]. unfold slugAfter. rewrite Es, Ee.
unfold afterSlug. destruct (derives st) eqn:Hd.
- split; [|split; [discriminate|intros _]].
  + cbn [derived env reads]. pose proof (chosen_reads st). lia.
  + cbv zeta. unfold chosen.
    destruct (taken st (baseCandidate _)); cbn [negb].
    2:{ split; [auto | discriminate]. }
    split; [discriminate | intros _].
    destruct (taken st (retryCandidate st 0)); cbn [negb].
    2:{ split; [auto | discriminate]. }
    split; [discriminate | intros _].
    destruct (taken st (retryCandidate st 1)); cbn [negb].
    2:{ split; [auto | discriminate]. }
    split; [discriminate | intros _].
    destruct (taken st (retryCandidate st 2)); cbn [negb].
    2:{ split; [auto | discriminate]. }
    split; [discriminate | auto].
- split; [lia | split; [reflexivity | discriminate]].
Qed.

(** *** C6 *)

(** C6: when the title is not modified and the record is not a new one
    without a slug, the hook leaves the slug as it was. *)
Theorem title_unmodified_keeps_slug st :
  modified (this st) PTitle = false ->
  isNew (this st) && slugMissing (this st) = false ->
  slugAfter st = slug (this st).
Proof.
intros Ht Hn. unfold slugAfter. destruct (preValidate_after st) as [E _].
rewrite E. unfold afterSlug, derives. rewrite Ht, Hn. reflexivity.
Qed.

Lemma title_unmodified_keeps_slug_witness :
  slugAfter rescheduledState = Some (lit "my-event-k3x9qa").
Proof.
apply (title_unmodified_keeps_slug rescheduledState); reflexivity.
Defined.

(** *** C3 *)



(** *** C2 and C9 *)

(** What the date step does with each input. *)
Lemma normalizeDate_cases v :
  match v with
  | VOther =>
      dateOutcome v = Throw (lit "Date must be a string in YYYY-MM-DD format")
  | VString s =>
      (forall y m d, 0 <= y <= 9999 -> 0 <= m <= 99 -> 0 <= d <= 99 ->
         s = isoDate y m d ->
         dateOutcome v =
         if mismatch y m d then Throw (lit "Invalid date components")
         else Ok (String_ y ++ lit "-" ++ twoDigits m ++ lit "-" ++ twoDigits d)) /\
      ((~ exists y m d, 0 <= y <= 9999 /\ 0 <= m <= 99 /\ 0 <= d <= 99 /\
                        s = isoDate y m d) ->
         dateOutcome v = Throw (lit "Date must be in YYYY-MM-DD format"))
  end.
Proof.
destruct v as [s|]; [|reflexivity]. split.
- intros y m d Hy Hm Hd ->. now apply dateOutcome_iso.
- intros H. destruct (test dateRegex s) eqn:T.
  + exfalso. apply H, dateRegex_iso, T.
  + unfold dateOutcome, normalizeDate, bind, get. cbn [date this fst snd].
    rewrite T. reflexivity.
Qed.


(** An accepted date from the year 1000 on is stored as it was given. *)
Lemma normalizeDate_identity_from_1000 y m d :
  1000 <= y <= 9999 -> realDate y m d ->
  dateOutcome (VString (isoDate y m d)) = Ok (isoDate y m d).
Proof.
intros Hy R.
assert (Hm : 0 <= m <= 99) by (destruct R; lia).
assert (Hd : 0 <= d <= 99).
{ destruct R as [Rm Rd]. pose proof (daysInMonth_bound y m Rm). lia. }
rewrite dateOutcome_iso by lia.
assert (M : mismatch y m d = false)
    by (apply mismatch_false_iff; [lia | lia | lia | split; [lia | exact R]]).
rewrite M, String_fourDigits by lia. reflexivity.
Qed.

(** C2: [0050-01-01] matches the pattern and names a real date, and the
    date step throws [Invalid date components] on it; [2024-02-30] and
    [2024-3-5] are rejected as the claim says. *)
Theorem real_date_below_year_100_rejected d w :
  let st := mkState (setDate (VString (lit "0050-01-01")) d) w in
  lit "0050-01-01" = isoDate 50 1 1 /\ realDate 50 1 1 /\
  normalizeDate st = (st, Throw (lit "Invalid date components")) /\
  dateOutcome (VString (lit "2024-02-30")) = Throw (lit "Invalid date components") /\
  dateOutcome (VString (lit "2024-3-5")) = Throw (lit "Date must be in YYYY-MM-DD format").
Proof.
cbv zeta. split; [reflexivity|]. split; [unfold realDate; cbn; lia|].
split; [|split; vm_compute; reflexivity].
rewrite normalizeDate_outcome. cbn [date this setDate].
replace (dateOutcome (VString (lit "0050-01-01")))
  with (@Throw str (lit "Invalid date components")) by (vm_compute; reflexivity).
reflexivity.
Qed.

(** C9: [0999-02-28] is accepted and stored as [999-02-28]. *)
Theorem accepted_date_loses_leading_zero d w :
  let st := mkState (setDate (VString (lit "0999-02-28")) d) w in
  normalizeDate st =
  (mkState (setDate (VString (lit "999-02-28")) d) w, Ok tt) /\
  lit "999-02-28" <> lit "0999-02-28".
Proof.
cbv zeta. split; [|discriminate].
rewrite normalizeDate_outcome. cbn [date this setDate env].
replace (dateOutcome (VString (lit "0999-02-28")))
  with (@Ok str (lit "999-02-28")) by (vm_compute; reflexivity).
destruct d; reflexivity.
Qed.

(** *** C10 *)

Lemma existsb_eqStr s l : existsb (eqStr s) l = true <-> In s l.
Proof.
rewrite existsb_exists. split.
- intros (x & Hx & E). apply eqStr_eq in E. now subst.
- intros H. exists s. split; [assumption | now apply eqStr_eq].
Qed.

(** C10: a mode is accepted exactly when its lower-case form is one of
    [online], [offline], [hybrid], and that form is what is stored;
    [Online] and [HYBRID] are stored as [online] and [hybrid]. *)
Theorem mode_is_case_insensitive v :
  (In (toLowerCase v) modeEnum -> saveMode v = Some (toLowerCase v)) /\
  (~ In (toLowerCase v) modeEnum -> saveMode v = None) /\
  saveMode (lit "Online") = Some (lit "online") /\
  saveMode (lit "HYBRID") = Some (lit "hybrid").
Proof.
split; [|split; [|split; vm_compute; reflexivity]].
- intros H. unfold saveMode, modeValid, modeSetter.
  assert (E : existsb (eqStr (toLowerCase v)) modeEnum = true)
    by now apply existsb_eqStr.
  rewrite E, andb_true_r.
  destruct (toLowerCase v) eqn:L; [|reflexivity].
  exfalso. cbn in H. intuition discriminate.
- intros H. unfold saveMode, modeValid, modeSetter.
  destruct (existsb (eqStr (toLowerCase v)) modeEnum) eqn:E.
  + exfalso. now apply H, existsb_eqStr.
  + now rewrite andb_false_r.
Qed.

(** *** C7 *)

Lemma emailRegex_form s : test Booking.emailRegex s = true <-> emailForm s.
Proof.
rewrite test_Lang. unfold Booking.emailRegex, emailForm. split.
- intros H.
  apply Lang_Seq_inv in H as (l & r1 & -> & Hl & H).
  apply Lang_Seq_inv in H as (a & r2 & -> & Ha & H).
  apply Lang_Seq_inv in H as (d1 & r3 & -> & Hd1 & H).
  apply Lang_Seq_inv in H as (p & d2 & -> & Hp & Hd2).
  apply Lang_Cls_inv in Ha as (c1 & -> & Hc1). apply isChar_spec in Hc1 as ->.
  apply Lang_Cls_inv in Hp as (c2 & -> & Hc2). apply isChar_spec in Hc2 as ->.
  apply Lang_Plus_Cls in Hl as [Nl Fl]. apply Lang_Plus_Cls in Hd1 as [N1 F1].
  apply Lang_Plus_Cls in Hd2 as [N2 F2].
  exists l, d1, d2. repeat split; assumption.
- intros (l & d1 & d2 & -> & Nl & N1 & N2 & Fl & F1 & F2).
  constructor; [now apply Lang_Plus_Cls|].
  constructor; [now constructor|].
  constructor; [now apply Lang_Plus_Cls|].
  constructor; [now constructor | now apply Lang_Plus_Cls].
Qed.

Lemma isSpace_lowerChar c : isSpace (lowerChar c) = isSpace c.
Proof. all_chars c. Qed.

Lemma dropWhile_lower s :
  dropWhile isSpace (map lowerChar s) = map lowerChar (dropWhile isSpace s).
Proof.
induction s as [|c s IH]; [reflexivity|]. simpl.
rewrite isSpace_lowerChar. destruct (isSpace c); [assumption | reflexivity].
Qed.

(** Trimming and lower-casing commute: the order of the two setters does
    not matter. *)
Lemma trim_toLowerCase v : toLowerCase (trim v) = trim (toLowerCase v).
Proof.
unfold trim, toLowerCase, dropWhileEnd.
rewrite dropWhile_lower, <- map_rev, dropWhile_lower, map_rev. reflexivity.
Qed.

(** C7 (as amended): an email is accepted exactly when its lower-cased,
    trimmed form is [local@label.rest], three non-empty parts free of
    white space and of [@]; that form is what is stored. *)
Theorem email_accepted_iff v :
  Booking.emailSetters v = trim (toLowerCase v) /\
  (emailForm (Booking.emailSetters v) ->
     Booking.saveEmail v = Some (Booking.emailSetters v)) /\
  (~ emailForm (Booking.emailSetters v) -> Booking.saveEmail v = None).
Proof.
split; [apply trim_toLowerCase|].
unfold Booking.saveEmail, Booking.emailValid, Booking.emailValidator. split.
- intros F. pose proof F as T. apply emailRegex_form in T. rewrite T, andb_true_r.
  destruct F as (l & d1 & d2 & E & Nl & _). rewrite E.
  destruct l; [congruence | reflexivity].
- intros H. destruct (test Booking.emailRegex _) eqn:T.
  + exfalso. now apply H, emailRegex_form.
  + now rewrite andb_false_r.
Qed.

(** C7 (as stated) fails: [a@b] is a local part, [@] and a domain
    without white space, and it is rejected. *)
Lemma email_without_dot_rejected :
  emailFormClaimed (Booking.emailSetters (lit "a@b")) /\
  Booking.saveEmail (lit "a@b") = None.
Proof.
split; [|vm_compute; reflexivity].
exists (lit "a"), (lit "b"). repeat split; try discriminate.
Qed.

(** *** C4 *)

(** C4: the hook issues one [exists] query when [eventId] is modified
    and none otherwise; with the query issued, the save goes on when an
    Event has the identity and is aborted with [Referenced event does
    not exist] when none has; the document is not changed. *)
Theorem booking_event_lookup (st : Booking.state) :
  let r := Booking.preSave st in
  let changed := Booking.eventIdModified (Booking.this st) in
  let id := Booking.eventId (Booking.this st) in
  let ids := Booking.eventIds (Booking.env st) in
  Booking.existsReads (Booking.env (fst r)) =
    ((if changed then 1 else 0) + Booking.existsReads (Booking.env st))%nat /\
  Booking.this (fst r) = Booking.this st /\
  (changed = false -> r = (st, Ok tt)) /\
  (changed = true -> In id ids -> snd r = Ok tt) /\
  (changed = true -> ~ In id ids ->
     snd r = Throw (lit "Referenced event does not exist")).
Proof.
cbv zeta. unfold Booking.preSave, bind, get, when, Booking.eventExists.
destruct (Booking.eventIdModified (Booking.this st)); cbn [fst snd].
- assert (E : existsb (Nat.eqb (Booking.eventId (Booking.this st)))
                (Booking.eventIds (Booking.env st)) = true <->
              In (Booking.eventId (Booking.this st)) (Booking.eventIds (Booking.env st))).
  { rewrite existsb_exists. split.
    - intros (x & Hx & Ex). apply Nat.eqb_eq in Ex. now subst.
    - intros H. eexists. split; [exact H | apply Nat.eqb_refl]. }
  destruct (existsb _ _); cbn [negb fst snd Booking.env Booking.this Booking.existsReads].
  + repeat split; try discriminate. intros _ H. exfalso. apply H, E. reflexivity.
  + repeat split; try discriminate. intros _ H. apply E in H. discriminate.
- repeat split; discriminate.
Qed.

End Claims.

(* ================================================================== *)
(** ** Lists and characters, continued *)
(* ================================================================== *)

Module ListFacts.
Import JS Spec Run Fields JSFacts TimeFacts SlugFacts SlugRun.

Lemma headFree_dropWhile p s : headFree p (dropWhile p s) = true.
Proof.
induction s as [|c s IH]; simpl; [reflexivity|].
destruct (p c) eqn:E; [assumption|]. simpl. now rewrite E.
Qed.

Lemma dropWhile_headFree p s : headFree p s = true -> dropWhile p s = s.
Proof.
destruct s as [|c s]; simpl; [reflexivity|]. intros H.
apply negb_true_iff in H. now rewrite H.
Qed.

Lemma headFree_prefix p a b : headFree p (a ++ b) = true -> headFree p a = true.
Proof. destruct a; simpl; auto. Qed.

Lemma dropWhileEnd_tailFree p s :
  headFree p (rev s) = true -> dropWhileEnd p s = s.
Proof.
intros H. unfold dropWhileEnd. rewrite dropWhile_headFree by assumption.
apply rev_involutive.
Qed.

Lemma tailFree_dropWhileEnd p s : headFree p (rev (dropWhileEnd p s)) = true.
Proof. unfold dropWhileEnd. rewrite rev_involutive. apply headFree_dropWhile. Qed.

(** What [trim] returns has no white space at either end. *)
Lemma trim_ends s :
  headFree isSpace (trim s) = true /\ headFree isSpace (rev (trim s)) = true.
Proof.
unfold trim. split; [|apply tailFree_dropWhileEnd].
destruct (dropWhileEnd_prefix isSpace (dropWhile isSpace s)) as (u & E).
apply headFree_prefix with (b := u). rewrite <- E. apply headFree_dropWhile.
Qed.

Lemma trim_fixed s :
  headFree isSpace s = true -> headFree isSpace (rev s) = true -> trim s = s.
Proof.
intros H1 H2. unfold trim. rewrite dropWhile_headFree by assumption.
now apply dropWhileEnd_tailFree.
Qed.

Lemma trim_idempotent s : trim (trim s) = trim s.
Proof. destruct (trim_ends s). now apply trim_fixed. Qed.

Lemma lowerChar_idempotent c : lowerChar (lowerChar c) = lowerChar c.
Proof. all_chars c. Qed.

Lemma toLowerCase_idempotent s : toLowerCase (toLowerCase s) = toLowerCase s.
Proof.
unfold toLowerCase. rewrite map_map. apply map_ext. apply lowerChar_idempotent.
Qed.

Lemma filter_all (p : ascii -> bool) s : forallb p s = true -> filter p s = s.
Proof.
induction s as [|c s IH]; simpl; [reflexivity|]. intros H.
apply andb_true_iff in H as [Hc Hs]. now rewrite Hc, IH.
Qed.

Lemma replaceRuns_none p s : forall b,
  forallb (fun c => negb (p c)) s = true -> replaceRuns p b s = s.
Proof.
induction s as [|c s IH]; intros b H; simpl; [reflexivity|].
simpl in H. apply andb_true_iff in H as [Hc Hs].
apply negb_true_iff in Hc. rewrite Hc. now rewrite IH.
Qed.

Lemma isHyphen_eq c : isHyphen c = true -> c = "-"%char.
Proof. unfold isHyphen. apply JSFacts.isChar_spec. Qed.

(** A string without doubled hyphens is left as it is by the collapse
    of hyphen runs. *)
Lemma replaceRuns_single s : forall b,
  noDoubleHyphen s = true -> (b = true -> noLeadingHyphen s = true) ->
  replaceRuns isHyphen b s = s.
Proof.
induction s as [|c s IH]; intros b D L; [reflexivity|].
cbn [replaceRuns]. cbn [noDoubleHyphen] in D.
apply andb_true_iff in D as [D1 D2].
destruct (isHyphen c) eqn:E.
- destruct b.
  + specialize (L eq_refl). simpl in L. rewrite E in L. discriminate.
  + rewrite (isHyphen_eq c E). f_equal. apply IH; [assumption|].
    intros _. cbn [andb negb] in D1. now apply negb_true_iff, negb_false_iff in D1.
- f_equal. apply IH; [assumption | discriminate].
Qed.

Lemma noLeading_headFree s : noLeadingHyphen s = headFree isHyphen s.
Proof. destruct s; reflexivity. Qed.

Lemma slugChar_kept c : isSlugCharU c = true -> kept c = true.
Proof. all_chars c. Qed.

End ListFacts.

(* ================================================================== *)
(** ** Further properties of the code *)
(* ================================================================== *)

Module Extras.
Import JS Regex Spec Run Fields Outcomes Hook Event JSFacts RegexFacts TimeFacts DateFacts
  DateHook SlugFacts SlugRun SlugHook Claims ListFacts.
Local Open Scope Z_scope.

(** *** The slug pipeline *)

(** X1: the cleaned title of a cleaned title is that cleaned title: the
    [replace] pipeline changes nothing in what it returned. *)
Theorem slugBase_idempotent t : slugBase (slugBase t) = slugBase t.
Proof.
pose proof (slugBase_chars t) as C.
destruct (slugBase_shape t) as (L & T & D).
set (b := slugBase t) in *.
assert (NS : forallb (fun c => negb (isSpace c)) b = true).
{ apply forallb_impl with (p := isSlugCharU); [|assumption].
  intros c Hc. now rewrite slugChar_notSpace. }
assert (Lw : toLowerCase b = b).
{ unfold toLowerCase. rewrite <- (map_id b) at 2. apply map_ext_in.
  intros c Hc. apply slugChar_lower. rewrite forallb_forall in C. auto. }
assert (Tr : trim b = b).
{ unfold trim. now rewrite (dropWhile_id isSpace b NS), (dropWhileEnd_id isSpace b NS). }
assert (K : keepOnly (fun c => isWord c || isSpace c || isHyphen c) b = b).
{ apply filter_all. apply forallb_impl with (p := isSlugCharU); [|assumption].
  apply slugChar_kept. }
unfold slugBase at 1. rewrite Lw, Tr, K.
rewrite (replaceRuns_none isSpace b false NS).
rewrite (replaceRuns_single b false D) by discriminate.
unfold stripHyphens.
rewrite dropWhile_headFree by (rewrite <- noLeading_headFree; exact L).
apply dropWhileEnd_tailFree. rewrite <- noLeading_headFree. exact T.
Qed.

Lemma slugBase_trim t : slugBase (trim t) = slugBase t.
Proof. unfold slugBase. now rewrite trim_toLowerCase, trim_idempotent. Qed.

(** X2: titles that differ in letter case, or in white space around
    them, have the same cleaned title. *)
Theorem slugBase_ignores_case_and_padding t :
  slugBase (toLowerCase t) = slugBase t /\ slugBase (trim t) = slugBase t.
Proof.
split; [|apply slugBase_trim].
unfold slugBase. now rewrite toLowerCase_idempotent.
Qed.

(** *** Tokens *)

Lemma alphabet_alnum i c : nth_error alphabet i = Some c -> isLowerAlnum c = true.
Proof.
intros H. apply nth_error_In in H.
assert (A : forallb isLowerAlnum alphabet = true) by (vm_compute; reflexivity).
rewrite forallb_forall in A. auto.
Qed.

Lemma joinOpt_chars q l :
  (forall c, In (Some c) l -> q c = true) -> forallb q (joinOpt l) = true.
Proof.
induction l as [|o l IH]; intros H; [reflexivity|].
unfold joinOpt in *. cbn [flat_map]. rewrite forallb_app.
rewrite IH by (intros c Hc; apply H; now right).
destruct o as [c|]; [|reflexivity]. cbn [forallb]. rewrite (H c); [reflexivity|now left].
Qed.

Lemma joinOpt_length l : (List.length (joinOpt l) <= List.length l)%nat.
Proof.
induction l as [|o l IH]; [apply Nat.le_refl|].
unfold joinOpt in *. cbn [flat_map]. rewrite length_app.
destruct o; cbn [List.length]; lia.
Qed.

Lemma tokenAt_chars w k : forallb isLowerAlnum (tokenAt w k) = true.
Proof.
unfold tokenAt. apply joinOpt_chars. intros c Hc.
apply in_map_iff in Hc as (i & Hi & _). now apply alphabet_alnum in Hi.
Qed.

Lemma generateShortId_run st :
  generateShortId st =
  (mkState (this st)
     (mkWorld (events (env st)) (draws (env st)) (6 + drawn (env st))
        (now (env st)) (reads (env st))),
   Ok (tokenAt (env st) (drawn (env st)))).
Proof. reflexivity. Qed.

(** X3: [generateShortId] takes six draws, issues no query and leaves
    the document alone; its token is made of characters of [0-9a-z], has
    at most six of them, and exactly six when the six draws are indices
    of the alphabet. *)
Theorem generateShortId_token st :
  exists tok,
    generateShortId st =
    (mkState (this st)
       (mkWorld (events (env st)) (draws (env st)) (6 + drawn (env st))
          (now (env st)) (reads (env st))),
     Ok tok) /\
    forallb isLowerAlnum tok = true /\
    (List.length tok <= 6)%nat /\
    (drawsInRange (env st) (drawn (env st)) 6 -> List.length tok = 6%nat).
Proof.
exists (tokenAt (env st) (drawn (env st))). split; [apply generateShortId_run|].
split; [apply tokenAt_chars|]. split.
- unfold tokenAt. etransitivity; [apply joinOpt_length|].
  rewrite length_map, length_seq. apply Nat.le_refl.
- intros H. now apply isToken_spec, tokenAt_token.
Qed.


(** *** The slug step *)

Lemma baseCandidate_chars t : forallb isSlugCharU (baseCandidate t) = true.
Proof.
unfold baseCandidate. pose proof (slugBase_chars t) as C.
destruct (slugBase t); [reflexivity | exact C].
Qed.

Lemma retryCandidate_chars st i : forallb isSlugCharU (retryCandidate st i) = true.
Proof.
unfold retryCandidate. rewrite !forallb_app, slugBase_chars.
cbn [hyphen lit list_ascii_of_string forallb andb].
apply forallb_impl with (p := isLowerAlnum); [apply alnum_slugChar|].
apply tokenAt_chars.
Qed.

Lemma fallbackCandidate_chars st : forallb isSlugCharU (fallbackCandidate st) = true.
Proof.
unfold fallbackCandidate. rewrite !forallb_app, slugBase_chars, timestamp_slugChars.
cbn [hyphen lit list_ascii_of_string forallb andb].
apply forallb_impl with (p := isLowerAlnum); [apply alnum_slugChar|].
apply tokenAt_chars.
Qed.

(** The setters leave the candidate the derivation settles on as it is. *)
Lemma chosen_kept st :
  slugSetters (fst (fst (chosen st))) = fst (fst (chosen st)).
Proof.
apply slugSetters_id. unfold chosen.
destruct (taken st (baseCandidate _)); cbn [negb fst]; [|apply baseCandidate_chars].
destruct (taken st (retryCandidate st 0)); cbn [negb fst]; [|apply retryCandidate_chars].
destruct (taken st (retryCandidate st 1)); cbn [negb fst]; [|apply retryCandidate_chars].
destruct (taken st (retryCandidate st 2)); cbn [negb fst]; [|apply retryCandidate_chars].
apply fallbackCandidate_chars.
Qed.

(** X4: when the base candidate or one of the three retries is held by
    no other record, the slug the hook assigns is held by no other
    record. *)
Theorem derived_slug_is_free st :
  derives st = true ->
  taken st (baseCandidate (title (this st))) && taken st (retryCandidate st 0)
  && taken st (retryCandidate st 1) && taken st (retryCandidate st 2) = false ->
  exists s, slugAfter st = Some s /\ taken st s = false.
Proof.
intros Hd Hfree. exists (fst (fst (chosen st))).
rewrite (slugAfter_derived st Hd), chosen_kept. split; [reflexivity|].
unfold chosen.
destruct (taken st (baseCandidate _)) eqn:E0; cbn [negb fst]; [|exact E0].
destruct (taken st (retryCandidate st 0)) eqn:E1; cbn [negb fst]; [|exact E1].
destruct (taken st (retryCandidate st 1)) eqn:E2; cbn [negb fst]; [|exact E2].
destruct (taken st (retryCandidate st 2)) eqn:E3; cbn [negb fst]; [|exact E3].
discriminate.
Qed.

Lemma derived_slug_is_free_witness :
  exists s, slugAfter collidingState = Some s /\ taken collidingState s = false.
Proof.
apply (derived_slug_is_free collidingState); vm_compute; reflexivity.
Defined.

Lemma taken_false_iff st s :
  taken st s = false <->
  (forall row, In row (events (env st)) -> snd row = s ->
               fst row = _id (this st)).
Proof.
unfold taken. split.
- intros H row Hin Hs.
  rewrite <- not_true_iff_false, existsb_exists in H.
  destruct (Nat.eqb (fst row) (_id (this st))) eqn:E; [now apply Nat.eqb_eq|].
  exfalso. apply H. exists row. split; [assumption|].
  rewrite E. cbn [negb]. rewrite andb_true_r. now apply eqStr_eq.
- intros H. apply not_true_iff_false. rewrite existsb_exists.
  intros (row & Hin & Hrow). apply andb_true_iff in Hrow as [Hs Hid].
  apply eqStr_eq in Hs. apply negb_true_iff, Nat.eqb_neq in Hid. auto.
Qed.

(** X5: when the only rows holding the base candidate are the
    document's own, the hook assigns the base candidate after one query
    and without a random draw. *)
Theorem own_row_does_not_collide st :
  derives st = true ->
  (forall row, In row (events (env st)) ->
     snd row = baseCandidate (title (this st)) -> fst row = _id (this st)) ->
  slugAfter st = Some (baseCandidate (title (this st))) /\
  reads (env (fst (preValidate st))) = (1 + reads (env st))%nat /\
  drawn (env (fst (preValidate st))) = drawn (env st).
Proof.
intros Hd Hown. apply taken_false_iff in Hown.
destruct (preValidate_after st) as [_ Ee].
rewrite (slugAfter_derived st Hd), Ee. unfold afterSlug. rewrite Hd.
assert (Ec : chosen st = (baseCandidate (title (this st)), 0%nat, 1%nat)).
{ unfold chosen. now rewrite Hown. }
rewrite Ec. cbn [fst snd derived env reads drawn].
rewrite slugSetters_id by apply baseCandidate_chars. auto.
Qed.


(** *** The hook as a whole *)

Lemma afterSlug_doc st :
  _id (this (afterSlug st)) = _id (this st) /\
  isNew (this (afterSlug st)) = isNew (this st) /\
  title (this (afterSlug st)) = title (this st) /\
  date (this (afterSlug st)) = date (this st) /\
  time (this (afterSlug st)) = time (this st) /\
  modified (this (afterSlug st)) = modified (this st) /\
  events (env (afterSlug st)) = events (env st) /\
  draws (env (afterSlug st)) = draws (env st) /\
  now (env (afterSlug st)) = now (env st).
Proof. unfold afterSlug. destruct (derives st); repeat split. Qed.

Lemma dateTimeSteps_doc s1 :
  _id (this (fst (dateTimeSteps s1))) = _id (this s1) /\
  isNew (this (fst (dateTimeSteps s1))) = isNew (this s1) /\
  title (this (fst (dateTimeSteps s1))) = title (this s1) /\
  modified (this (fst (dateTimeSteps s1))) = modified (this s1).
Proof.
unfold dateTimeSteps, bind, when, isModified, ret.
destruct (modified (this s1) PDate).
- rewrite normalizeDate_outcome. destruct (dateOutcome _) as [r|e]; cbn [fst snd].
  + cbn [this setDate modified].
    destruct (modified (this s1) PTime); [|repeat split].
    rewrite normalizeTime_run. destruct (storedTime _); repeat split.
  + repeat split.
- destruct (modified (this s1) PTime); [|repeat split].
  rewrite normalizeTime_run. destruct (storedTime _); repeat split.
Qed.

Lemma own_row_does_not_collide_witness :
  slugAfter retitledState = Some (lit "my-event") /\
  reads (env (fst (preValidate retitledState))) = 1%nat /\
  drawn (env (fst (preValidate retitledState))) = 0%nat.
Proof.
apply (own_row_does_not_collide retitledState); [reflexivity|].
intros row [<- | [<- | []]] H; [reflexivity | discriminate H].
Defined.

(** X6: whatever the outcome, the hook leaves the identity, the
    [isNew] flag and the title of the document, and the rows of the
    store, as they were. *)
Theorem hook_frame st :
  let st' := fst (preValidate st) in
  _id (this st') = _id (this st) /\
  isNew (this st') = isNew (this st) /\
  title (this st') = title (this st) /\
  events (env st') = events (env st).
Proof.
cbv zeta. destruct (preValidate_after st) as [_ Ee]. rewrite Ee.
rewrite preValidate_steps.
destruct (dateTimeSteps_doc (afterSlug st)) as (D1 & D2 & D3 & _).
destruct (afterSlug_doc st) as (A1 & A2 & A3 & _ & _ & _ & A7 & _).
rewrite D1, D2, D3, A1, A2, A3, A7. repeat split.
Qed.

Lemma dateTimeSteps_outcome s1 :
  snd (dateTimeSteps s1) = hookOutcome s1 /\
  (forall e, modified (this s1) PDate = true ->
     dateOutcome (date (this s1)) = Throw e ->
     time (this (fst (dateTimeSteps s1))) = time (this s1)).
Proof.
unfold dateTimeSteps, hookOutcome, bind, when, isModified, ret.
destruct (modified (this s1) PDate).
- rewrite normalizeDate_outcome. destruct (dateOutcome _) as [r|e]; cbn [fst snd].
  + cbn [this setDate modified time]. split; [|discriminate].
    destruct (modified (this s1) PTime); [|reflexivity].
    rewrite normalizeTime_run. cbn [this setDate time].
    destruct (storedTime _); reflexivity.
  + split; [reflexivity | auto].
- split; [|discriminate].
  destruct (modified (this s1) PTime); [|reflexivity].
  rewrite normalizeTime_run. destruct (storedTime _); reflexivity.
Qed.

Lemma hookOutcome_afterSlug st : hookOutcome (afterSlug st) = hookOutcome st.
Proof.
unfold hookOutcome.
destruct (afterSlug_doc st) as (_ & _ & _ & A4 & A5 & A6 & _).
now rewrite A4, A5, A6.
Qed.

(** X7: on a document without a title whose slug is to be derived,
    the hook throws a TypeError at once and does nothing: no query, no
    draw, no field assigned.  In every other case the slug step does not
    fail and the hook fails exactly as its date step, and else as its
    time step, each run only on a modified field.  When the date step
    throws, that error is the hook's, the time is not normalised, and
    the slug assigned before stays assigned. *)
Theorem hook_outcome t st :
  let st0 := match t with
             | Some s => mkState (setTitle s (this st)) (env st)
             | None => st
             end in
  (t = None /\ derives st = true ->
     preValidateWith t st = (st, Throw (lit "TypeError"))) /\
  (t <> None \/ derives st = false ->
     snd (preValidateWith t st) = hookOutcome st /\
     (forall e, modified (this st) PDate = true ->
        dateOutcome (date (this st)) = Throw e ->
        snd (preValidateWith t st) = Throw e /\
        time (this (fst (preValidateWith t st))) = time (this st) /\
        slug (this (fst (preValidateWith t st))) = slug (this (afterSlug st0)))) /\
  preValidateWith None untitledState = (untitledState, Throw (lit "TypeError")).
Proof.
cbv zeta.
assert (G : forall s0, snd (preValidate s0) = hookOutcome s0 /\
   (forall e, modified (this s0) PDate = true ->
      dateOutcome (date (this s0)) = Throw e ->
      snd (preValidate s0) = Throw e /\
      time (this (fst (preValidate s0))) = time (this s0) /\
      slug (this (fst (preValidate s0))) = slug (this (afterSlug s0)))).
{ intros s0. destruct (dateTimeSteps_outcome (afterSlug s0)) as [O T].
  destruct (afterSlug_doc s0) as (_ & _ & _ & A4 & A5 & A6 & _).
  rewrite preValidate_steps, O, hookOutcome_afterSlug. split; [reflexivity|].
  intros e Hm He. split; [|split].
  - unfold hookOutcome. now rewrite Hm, He.
  - rewrite <- A5. apply (T e); [now rewrite A6 | now rewrite A4].
  - rewrite <- preValidate_steps. apply preValidate_after. }
split; [|split].
- intros [-> Hs]. unfold derives in Hs.
  unfold preValidateWith, bind, get, isModified, when, throw. cbn [fst snd].
  rewrite Hs. reflexivity.
- destruct t as [s|].
  + intros _. exact (G (mkState (setTitle s (this st)) (env st))).
  + intros [H|Hs]; [congruence|].
    assert (E : preValidateWith None st = preValidate st).
    { unfold derives in Hs.
      unfold preValidateWith, preValidate, bind, get, isModified, when, ret.
      cbn [fst snd]. rewrite Hs. reflexivity. }
    rewrite E. exact (G st).
- vm_compute. reflexivity.
Qed.

(** X8: the hook draws six random indices per token and makes at most
    four tokens: none when no slug is derived or the base candidate is
    free, at least one when the base candidate collides. *)
Theorem hook_draws st :
  exists k, (k <= 4)%nat /\
    drawn (env (fst (preValidate st))) = (6 * k + drawn (env st))%nat /\
    (derives st = false -> k = 0%nat) /\
    (taken st (baseCandidate (title (this st))) = false -> k = 0%nat) /\
    (derives st = true -> taken st (baseCandidate (title (this st))) = true ->
       (1 <= k)%nat).
Proof.
destruct (preValidate_after st) as [_ Ee]. rewrite Ee. unfold afterSlug.
destruct (derives st).
- exists (snd (fst (chosen st))). cbn [derived env drawn]. unfold chosen.
  destruct (taken st (baseCandidate _)); cbn [negb fst snd].
  2:{ repeat split; try lia; try discriminate. }
  destruct (taken st (retryCandidate st 0)); cbn [negb fst snd].
  2:{ repeat split; try lia; try discriminate. }
  destruct (taken st (retryCandidate st 1)); cbn [negb fst snd].
  2:{ repeat split; try lia; try discriminate. }
  destruct (taken st (retryCandidate st 2)); cbn [negb fst snd];
    repeat split; try lia; try discriminate.
- exists 0%nat. repeat split; try lia; try discriminate.
Qed.


(** *** The date step *)


(** X10: a date step that fails leaves the state as it was and throws
    one of three messages: the first on a value that is not a string,
    the second on a string outside the pattern, the third on a string of
    the pattern that is not a real date of a year from 100 on. *)
Theorem date_step_errors st :
  match date (this st) with
  | VOther =>
      normalizeDate st =
      (st, Throw (lit "Date must be a string in YYYY-MM-DD format"))
  | VString s =>
      (test dateRegex s = false ->
         normalizeDate st = (st, Throw (lit "Date must be in YYYY-MM-DD format"))) /\
      (forall y m d, 0 <= y <= 9999 -> 0 <= m <= 99 -> 0 <= d <= 99 ->
         s = isoDate y m d -> ~ (100 <= y /\ realDate y m d) ->
         normalizeDate st = (st, Throw (lit "Invalid date components")))
  end.
Proof.
rewrite normalizeDate_outcome.
destruct (date (this st)) as [s|]; [|reflexivity]. split.
- intros T. destruct (normalizeDate_cases (VString s)) as [_ Hno].
  rewrite Hno; [reflexivity|]. intros H. apply dateRegex_iso in H. congruence.
- intros y m d Hy Hm Hd -> Hbad. rewrite dateOutcome_iso by assumption.
  destruct (mismatch y m d) eqn:M; [reflexivity|].
  exfalso. apply Hbad. now apply mismatch_false_iff.
Qed.

Lemma String_threeDigits_length n :
  100 <= n <= 999 -> List.length (String_ n) = 3%nat.
Proof.
intros H. unfold String_, toStringRadix, digitsN.
destruct (Z.ltb_spec n 0); [lia|].
assert (L : (6 <= N.log2 (Z.to_N n))%N).
{ change 6%N with (N.log2 64). apply N.log2_le_mono. lia. }
destruct (N.to_nat (N.log2 (Z.to_N n))) as [|[|k]] eqn:E; try lia.
assert (D : forall z, 0 <= z -> (Z.to_N z / 10 = Z.to_N (z / 10))%N)
  by (intros z Hz; rewrite Z2N.inj_div by lia; reflexivity).
assert (Q : forall z, 0 < z -> (Z.to_N z =? 0)%N = false)
  by (intros z Hz; apply N.eqb_neq; lia).
rewrite digitsFuel_step, D, Q by (Z.div_mod_to_equations; lia).
rewrite digitsFuel_step, D, Q by (Z.div_mod_to_equations; lia).
rewrite digitsFuel_step, D by (Z.div_mod_to_equations; lia).
replace (n / 10 / 10 / 10) with 0 by (Z.div_mod_to_equations; lia).
reflexivity.
Qed.

Lemma dateRegex_length s : test dateRegex s = true -> List.length s = 10%nat.
Proof.
intros H. apply dateRegex_iso in H as (y & m & d & _ & _ & _ & ->). reflexivity.
Qed.

(** X11: the date stored for an accepted input is accepted unchanged
    when it is normalised again if the year is 1000 or later, and is
    refused for its pattern if the year is below 1000. *)
Theorem stored_date_saved_again y m d :
  100 <= y <= 9999 -> realDate y m d ->
  let stored := String_ y ++ lit "-" ++ twoDigits m ++ lit "-" ++ twoDigits d in
  dateOutcome (VString (isoDate y m d)) = Ok stored /\
  (1000 <= y -> dateOutcome (VString stored) = Ok stored) /\
  (y <= 999 ->
     dateOutcome (VString stored) = Throw (lit "Date must be in YYYY-MM-DD format")).
Proof.
intros Hy R stored.
assert (Hm : 0 <= m <= 99) by (destruct R; lia).
assert (Hd : 0 <= d <= 99).
{ destruct R as [Rm Rd]. pose proof (daysInMonth_bound y m Rm). lia. }
assert (M : mismatch y m d = false)
  by (apply mismatch_false_iff; [lia | lia | lia | split; [lia | exact R]]).
split; [|split].
- rewrite dateOutcome_iso by lia. now rewrite M.
- intros H1000. unfold stored. rewrite String_fourDigits by lia.
  apply (normalizeDate_identity_from_1000 y m d); [lia | exact R].
- intros H999. destruct (normalizeDate_cases (VString stored)) as [_ Hno].
  apply Hno. intros H. apply dateRegex_iso, dateRegex_length in H.
  unfold stored in H. rewrite !length_app, String_threeDigits_length in H by lia.
  discriminate.
Qed.

Lemma stored_date_saved_again_witness :
  dateOutcome (VString (isoDate 999 2 28)) = Ok (lit "999-02-28") /\
  (1000 <= 999 -> dateOutcome (VString (lit "999-02-28")) = Ok (lit "999-02-28")) /\
  (999 <= 999 ->
     dateOutcome (VString (lit "999-02-28"))
     = Throw (lit "Date must be in YYYY-MM-DD format")).
Proof.
apply (stored_date_saved_again 999 2 28); [lia|].
unfold realDate. cbn. lia.
Defined.

(** *** The time step *)

(** What the time step stores is in the canonical form, on which the
    step changes nothing. *)
Lemma storedTime_canonical t v :
  storedTime t = Some v ->
  List.length v = 5%nat /\ test timeRegex v = true /\ storedTime v = Some v.
Proof.
intros E.
assert (F : exists h m, timeForm t h m).
{ apply timeRegex_form, storedTime_test. congruence. }
destruct F as (h & m & F). pose proof (timeForm_stored _ h m F) as Ev.
assert (Hv : v = twoDigits h ++ lit ":" ++ twoDigits m) by congruence.
subst v. clear Ev.
assert (F' : timeForm (twoDigits h ++ lit ":" ++ twoDigits m) h m).
{ destruct F as (Hh & Hm & _). split; [assumption|]. split; [assumption|]. now left. }
pose proof (timeForm_stored _ h m F') as Ev'.
split; [reflexivity|]. split; [|exact Ev'].
apply storedTime_test. rewrite Ev'. discriminate.
Qed.

(** X12: the time step either throws [Time must be in HH:MM format]
    and leaves the state as it was, or stores a five-character time that
    matches the pattern; the destructuring of [split(':')] never
    fails. *)
Theorem time_step_outcomes st :
  normalizeTime st = (st, Throw (lit "Time must be in HH:MM format")) \/
  exists v, normalizeTime st = (mkState (setTime v (this st)) (env st), Ok tt) /\
            List.length v = 5%nat /\ test timeRegex v = true.
Proof.
rewrite normalizeTime_run. destruct (storedTime (time (this st))) as [v|] eqn:E.
- right. exists v. split; [reflexivity|].
  destruct (storedTime_canonical _ v E) as (L & T & _). auto.
- now left.
Qed.

(** X13: a time step that succeeded changes nothing when it is run
    again on its result. *)
Theorem time_step_idempotent st :
  snd (normalizeTime st) = Ok tt ->
  normalizeTime (fst (normalizeTime st)) = (fst (normalizeTime st), Ok tt).
Proof.
intros H. rewrite (normalizeTime_run st) in *.
destruct (storedTime (time (this st))) as [v|] eqn:E; [|discriminate].
cbn [fst]. rewrite normalizeTime_run. cbn [this setTime time env].
destruct (storedTime_canonical _ v E) as (_ & _ & S). rewrite S. reflexivity.
Qed.

Lemma time_step_idempotent_witness :
  normalizeTime (fst (normalizeTime rescheduledState))
  = (fst (normalizeTime rescheduledState), Ok tt).
Proof.
apply (time_step_idempotent rescheduledState). vm_compute. reflexivity.
Defined.


(** *** Schema fields *)

Lemma emailSetters_idempotent v :
  Booking.emailSetters (Booking.emailSetters v) = Booking.emailSetters v.
Proof.
unfold Booking.emailSetters.
rewrite <- (trim_toLowerCase (trim v)), trim_idempotent.
apply toLowerCase_idempotent.
Qed.

Lemma saveEmail_stored v s :
  Booking.saveEmail v = Some s ->
  s = Booking.emailSetters v /\ Booking.emailValid s = true.
Proof.
unfold Booking.saveEmail.
destruct (Booking.emailValid (Booking.emailSetters v)) eqn:E; [|discriminate].
intros H. injection H as <-. auto.
Qed.

(** X14: a stored email is a fixed point: the setters leave it as it
    is and it is accepted again as itself. *)
Theorem stored_email_is_fixed v s :
  Booking.saveEmail v = Some s ->
  Booking.emailSetters s = s /\ Booking.saveEmail s = Some s.
Proof.
intros H. destruct (saveEmail_stored v s H) as [Es V].
assert (Fix : Booking.emailSetters s = s)
  by (rewrite Es; apply emailSetters_idempotent).
split; [exact Fix|].
unfold Booking.saveEmail. now rewrite Fix, V.
Qed.

Lemma stored_email_is_fixed_witness :
  Booking.emailSetters (lit "ada@example.org") = lit "ada@example.org" /\
  Booking.saveEmail (lit "ada@example.org") = Some (lit "ada@example.org").
Proof.
apply (stored_email_is_fixed (lit "  Ada@Example.ORG ")). vm_compute. reflexivity.
Defined.

Lemma count_at_none x :
  forallb Booking.notSpaceAt x = true -> count_occ ascii_dec x "@"%char = 0%nat.
Proof.
induction x as [|c x IH]; [reflexivity|]. cbn [forallb]. intros H.
apply andb_true_iff in H as [Hc Hx]. cbn [count_occ].
destruct (ascii_dec c "@") as [->|_]; [discriminate | auto].
Qed.

Lemma notSpaceAt_notSpace x :
  forallb Booking.notSpaceAt x = true ->
  forallb (fun c => negb (isSpace c)) x = true.
Proof.
apply forallb_impl. intros c. unfold Booking.notSpaceAt.
rewrite !negb_true_iff. intros H. now apply orb_false_iff in H.
Qed.

(** X15: a stored email has exactly one [@], no white space, no letter
    of [A-Z], and at least five characters. *)
Theorem stored_email_shape v s :
  Booking.saveEmail v = Some s ->
  count_occ ascii_dec s "@"%char = 1%nat /\
  forallb (fun c => negb (isSpace c)) s = true /\
  forallb (fun c => negb (inRange "A" "Z" c)) s = true /\
  (5 <= List.length s)%nat.
Proof.
intros H. destruct (saveEmail_stored v s H) as [Es V].
unfold Booking.emailValid, Booking.emailValidator in V.
apply andb_true_iff in V as [_ T]. apply emailRegex_form in T.
destruct T as (l & d1 & d2 & E & Nl & N1 & N2 & Fl & F1 & F2).
split; [|split; [|split]].
- rewrite E, !count_occ_app.
  rewrite (count_at_none l Fl), (count_at_none d1 F1), (count_at_none d2 F2).
  reflexivity.
- rewrite E, !forallb_app.
  rewrite (notSpaceAt_notSpace l Fl), (notSpaceAt_notSpace d1 F1),
    (notSpaceAt_notSpace d2 F2).
  reflexivity.
- rewrite Es. unfold Booking.emailSetters, toLowerCase.
  apply forallb_forall. intros c Hc. apply in_map_iff in Hc as (c0 & <- & _).
  now rewrite lowerChar_not_upper.
- rewrite E, !length_app. cbn [List.length lit list_ascii_of_string].
  destruct l; [congruence|]. destruct d1; [congruence|]. destruct d2; [congruence|].
  cbn [List.length]. lia.
Qed.

Lemma stored_email_shape_witness :
  count_occ ascii_dec (lit "ada@example.org") "@"%char = 1%nat /\
  forallb (fun c => negb (isSpace c)) (lit "ada@example.org") = true /\
  forallb (fun c => negb (inRange "A" "Z" c)) (lit "ada@example.org") = true /\
  (5 <= List.length (lit "ada@example.org"))%nat.
Proof.
apply (stored_email_shape (lit "  Ada@Example.ORG ")). vm_compute. reflexivity.
Defined.

Lemma saveTrimmed_stored v s :
  saveTrimmed v = Some s -> s = trim v /\ s <> [].
Proof.
unfold saveTrimmed. destruct (eqStr (trim v) []) eqn:E; [discriminate|].
intros H. injection H as <-. split; [reflexivity|].
intros N. rewrite N in E. discriminate.
Qed.

Lemma dropWhile_all p s : forallb p s = true -> dropWhile p s = [].
Proof.
induction s as [|c s IH]; [reflexivity|]. cbn [forallb dropWhile]. intros H.
apply andb_true_iff in H as [Hc Hs]. rewrite Hc. auto.
Qed.

(** X16: a required, trimmed string field refuses a value made of
    white space only; a value it stores is non-empty, has no white space
    at either end, is stored unchanged when saved again, and, as a
    title, has the cleaned title of the value given. *)
Theorem trimmed_field_stored v :
  (forallb isSpace v = true -> saveTrimmed v = None) /\
  (forall s, saveTrimmed v = Some s ->
     s <> [] /\ headFree isSpace s = true /\ headFree isSpace (rev s) = true /\
     saveTrimmed s = Some s /\ slugBase s = slugBase v).
Proof.
split.
- intros H. unfold saveTrimmed, trim. now rewrite dropWhile_all.
- intros s H. destruct (saveTrimmed_stored v s H) as [Es N].
  destruct (trim_ends v) as [T1 T2]. rewrite <- Es in T1, T2.
  split; [exact N|]. split; [exact T1|]. split; [exact T2|]. split.
  + unfold saveTrimmed. rewrite (trim_fixed s T1 T2).
    destruct (eqStr s []) eqn:E; [|reflexivity].
    apply eqStr_eq in E. contradiction.
  + rewrite Es. apply slugBase_trim.
Qed.


(** *** The retry loop and the untouched document *)

(** One turn of the loop. *)
Lemma retryLoop_step n base cand st :
  retryLoop (S n) base cand st =
  let c := base ++ hyphen ++ tokenAt (env st) (drawn (env st)) in
  let st1 := mkState (this st)
               (mkWorld (events (env st)) (draws (env st)) (6 + drawn (env st))
                  (now (env st)) (S (reads (env st)))) in
  if taken st c then retryLoop n base c st1 else (st1, Ok (c, false)).
Proof.
cbn [retryLoop]. unfold bind. rewrite generateShortId_run.
unfold findOneOther, taken. cbn [this env events draws drawn now reads _id].
cbv zeta. destruct (existsb _ _); reflexivity.
Qed.

(** X17: the retry loop with [n] attempts issues [k] queries and draws
    [k] tokens for some [k] up to [n], and leaves the document and the
    rows of the store alone.  When it ends on a free candidate, that
    candidate is the base, a hyphen and a token over [0-9a-z]; when it
    ends without one, it used all [n] attempts and its last candidate is
    taken. *)
Theorem retryLoop_spec n : forall base cand st,
  exists k c ex,
    snd (retryLoop n base cand st) = Ok (c, ex) /\
    (k <= n)%nat /\
    this (fst (retryLoop n base cand st)) = this st /\
    events (env (fst (retryLoop n base cand st))) = events (env st) /\
    reads (env (fst (retryLoop n base cand st))) = (k + reads (env st))%nat /\
    drawn (env (fst (retryLoop n base cand st))) = (6 * k + drawn (env st))%nat /\
    (ex = false -> (1 <= k)%nat /\ taken st c = false /\
                   exists tok, c = base ++ hyphen ++ tok /\
                               forallb isLowerAlnum tok = true) /\
    (ex = true -> k = n /\ (n = 0%nat -> c = cand) /\
                  (n <> 0%nat -> taken st c = true)).
Proof.
induction n as [|n IH]; intros base cand st.
- exists 0%nat, cand, true. cbn [retryLoop ret fst snd].
  repeat split; try discriminate; try lia; auto; intros H; congruence.
- rewrite retryLoop_step. cbv zeta.
  set (tok := tokenAt (env st) (drawn (env st))).
  set (st1 := mkState (this st) _).
  destruct (taken st (base ++ hyphen ++ tok)) eqn:E.
  + destruct (IH base (base ++ hyphen ++ tok) st1)
      as (k & c & ex & R & Hk & Ht & He & Hr & Hd & Hf & Htr).
    exists (S k), c, ex. rewrite R, Ht, He, Hr, Hd.
    cbn [st1 this env events reads drawn].
    split; [reflexivity|]. split; [lia|]. split; [reflexivity|].
    split; [reflexivity|]. split; [lia|]. split; [lia|]. split.
    * intros Hex. destruct (Hf Hex) as (H1 & H2 & H3). split; [lia|].
      split; [exact H2 | exact H3].
    * intros Hex. destruct (Htr Hex) as (H1 & H2 & H3). split; [lia|].
      split; [discriminate|]. intros _.
      destruct n as [|n']; [rewrite (H2 eq_refl); exact E | apply H3; discriminate].
  + exists 1%nat, (base ++ hyphen ++ tok), false.
    cbn [st1 fst snd this env events reads drawn].
    repeat split; try discriminate; try lia; auto.
    exists tok. split; [reflexivity | apply tokenAt_chars].
Qed.

(** X18: on a document with no slug to derive and neither date nor
    time modified, the hook changes nothing, issues no query and
    succeeds, whatever the stored date and time are. *)
Theorem untouched_document_passes st :
  derives st = false ->
  modified (this st) PDate = false -> modified (this st) PTime = false ->
  preValidate st = (st, Ok tt).
Proof.
intros Hs Hd Ht. rewrite (preValidate_time_only st Hs Hd), Ht. reflexivity.
Qed.

Lemma untouched_document_passes_witness :
  preValidate untouchedState = (untouchedState, Ok tt).
Proof.
apply (untouched_document_passes untouchedState); reflexivity.
Defined.

End Extras.
